(** * doc-helper: the batch file processor and the image processor

    A shallow embedding of the two React components of the repository:

    - [Batch]     : [src/App.jsx], images and PDFs, bundled into one zip
                    archive ("collect-then-package");
    - [ImageOnly] : the image-only component, one download per image
                    ("sequential-emit").

    The component state ([files], [processing]), the shared canvas and the
    browser side effects the handlers perform (object URLs, downloads,
    console) are gathered in one record [World]; every handler is a function
    on worlds.  Asynchronous functions return the way their promise settles
    together with the world they leave behind. *)

From Stdlib Require Import ZArith Ascii String.
From stdpp Require Import base decidable option list strings gmap fin_maps.

Local Open Scope Z_scope.

(** ** JavaScript string primitives used by the handlers *)

Module JsString.

(** [s.split(sep)] for a one-character separator: never the empty array. *)
Fixpoint split (sep : ascii) (s : string) : list string :=
  match s with
  | EmptyString => [EmptyString]
  | String c s' =>
      if decide (c = sep) then EmptyString :: split sep s'
      else match split sep s' with
           | [] => [String c EmptyString]
           | seg :: segs => String c seg :: segs
           end
  end.

(** [s.substring(n)]: the characters from index [n] on. *)
Fixpoint substring (n : nat) (s : string) : string :=
  match n, s with
  | O, _ => s
  | S _, EmptyString => EmptyString
  | S n', String _ s' => substring n' s'
  end.

(** [s.startsWith(p)]. *)
Definition startsWith (p s : string) : bool := String.prefix p s.

(** The character class [[^/.]] of the intake regular expression. *)
Definition ext_char (c : ascii) : bool :=
  negb (bool_decide (c = "/"%char)) && negb (bool_decide (c = "."%char)).

Fixpoint all_ext_chars (s : string) : bool :=
  match s with
  | EmptyString => true
  | String c s' => ext_char c && all_ext_chars s'
  end.

(** [s.replace(/\.[^/.]+$/, '')]: the leftmost position where a dot is
    followed, up to the end of the string, by one or more characters that
    are neither a slash nor a dot; the match runs to the end, so replacing
    it by the empty string keeps the prefix before it. *)
Fixpoint strip_extension (s : string) : string :=
  match s with
  | EmptyString => EmptyString
  | String c s' =>
      if bool_decide (c = "."%char)
         && negb (bool_decide (s' = EmptyString))
         && all_ext_chars s'
      then EmptyString
      else String c (strip_extension s')
  end.

End JsString.

(** ** Data model *)

(** A browser [File]: name, declared MIME type, size and bytes. *)
Record File := {
  file_name : string;
  file_type : string;
  file_size : Z;
  file_bytes : string;
}.

(** A decoded image, as [new Image()] holds it after [onload]. *)
Record Image := {
  naturalWidth : Z;
  naturalHeight : Z;
  image_pixels : string;
}.

(** One [ctx.drawImage(img, dx, dy, dw, dh)] call, with the numbers it was
    given. *)
Record DrawOp := {
  draw_image : Image;
  draw_dx : Z;
  draw_dy : Z;
  draw_dw : option Z;
  draw_dh : option Z;
}.

(** The hidden [<canvas>] both components share among all entries.  The size
    fields hold the size of its bitmap, which an assignment sets to the
    assigned number converted as the DOM converts it (see [canvas_size]);
    assigning either of them clears the bitmap. *)
Record Canvas := {
  canvas_width : option Z;
  canvas_height : option Z;
  canvas_drawn : list DrawOp;
}.

Inductive Blob :=
  | FileBlob (f : File)
  | CanvasBlob (requested_type : string) (snapshot : Canvas)
  | PdfBlob (bytes : string).

(** What an object URL points to: a blob, or the generated zip archive,
    given by the files it holds (a map from entry name to content). *)
Inductive Resource :=
  | RBlob (b : Blob)
  | RZip (entries : gmap string Blob).

(** The string [URL.createObjectURL] returns, modelled by the serial number
    of the call and the object it was created for.  Such a string is never
    empty, so a handle is always truthy. *)
Record handle := {
  url_serial : nat;
  url_target : Resource;
}.

Inductive kind := image | pdf.

(** An entry of the [files] state.  [type] is [None] in the image-only
    component, whose entries have no such property; [preview], [width] and
    [height] are [None] where the source stores [undefined].  The numeric
    settings are integers. *)
Record FileState := {
  id : string;
  file : File;
  type : option kind;
  preview : option handle;
  outputFilename : string;
  width : option Z;
  height : option Z;
}.

(** The argument of [updateFileSettings]: an object with any of the three
    setting keys; [None] is an absent key. *)
Record Updates := {
  upd_outputFilename : option string;
  upd_width : option Z;
  upd_height : option Z;
}.

Record World := {
  files : list FileState;
  processing : bool;
  canvas : Canvas;
  random_calls : nat;
  object_urls : nat;
  revoked : list handle;
  downloads : list (string * Resource);
  console : list (string * string);
}.

Definition blank_canvas : Canvas :=
  {| canvas_width := Some 300; canvas_height := Some 150; canvas_drawn := [] |}.

(** The freshly mounted component: [useState([])], [useState(false)]. *)
Definition initial : World :=
  {| files := []; processing := false; canvas := blank_canvas;
     random_calls := O; object_urls := O; revoked := [];
     downloads := []; console := [] |}.

(** *** Field updates *)

Definition setFiles (f : list FileState → list FileState) (w : World) : World :=
  {| files := f (files w); processing := processing w; canvas := canvas w;
     random_calls := random_calls w; object_urls := object_urls w;
     revoked := revoked w; downloads := downloads w; console := console w |}.

Definition setProcessing (b : bool) (w : World) : World :=
  {| files := files w; processing := b; canvas := canvas w;
     random_calls := random_calls w; object_urls := object_urls w;
     revoked := revoked w; downloads := downloads w; console := console w |}.

Definition set_canvas (c : Canvas) (w : World) : World :=
  {| files := files w; processing := processing w; canvas := c;
     random_calls := random_calls w; object_urls := object_urls w;
     revoked := revoked w; downloads := downloads w; console := console w |}.

(** [URL.createObjectURL(r)]. *)
Definition createObjectURL (r : Resource) (w : World) : handle * World :=
  ({| url_serial := object_urls w; url_target := r |},
   {| files := files w; processing := processing w; canvas := canvas w;
      random_calls := random_calls w; object_urls := S (object_urls w);
      revoked := revoked w; downloads := downloads w; console := console w |}).

(** [URL.revokeObjectURL(h)]. *)
Definition revokeObjectURL (h : handle) (w : World) : World :=
  {| files := files w; processing := processing w; canvas := canvas w;
     random_calls := random_calls w; object_urls := object_urls w;
     revoked := revoked w ++ [h]; downloads := downloads w;
     console := console w |}.

(** [a.href = h; a.download = filename; a.click()]. *)
Definition click_download (filename : string) (h : handle) (w : World) : World :=
  {| files := files w; processing := processing w; canvas := canvas w;
     random_calls := random_calls w; object_urls := object_urls w;
     revoked := revoked w;
     downloads := downloads w ++ [(filename, url_target h)];
     console := console w |}.

(** [console.error(label, error)]. *)
Definition console_error (label error : string) (w : World) : World :=
  {| files := files w; processing := processing w; canvas := canvas w;
     random_calls := random_calls w; object_urls := object_urls w;
     revoked := revoked w; downloads := downloads w;
     console := console w ++ [(label, error)] |}.

Definition count_random (w : World) : World :=
  {| files := files w; processing := processing w; canvas := canvas w;
     random_calls := S (random_calls w); object_urls := object_urls w;
     revoked := revoked w; downloads := downloads w; console := console w |}.

(** ** The entry store: [removeFile] and [updateFileSettings]

    Both components define these two handlers with the same text. *)

(** [prev.find((f) => f.id === i)]. *)
Fixpoint find_by_id (i : string) (prev : list FileState) : option FileState :=
  match prev with
  | [] => None
  | f :: prev' => if decide (id f = i) then Some f else find_by_id i prev'
  end.

(** [prev.filter((f) => f.id !== i)]. *)
Fixpoint filter_out_id (i : string) (prev : list FileState) : list FileState :=
  match prev with
  | [] => []
  | f :: prev' =>
      if decide (id f = i) then filter_out_id i prev'
      else f :: filter_out_id i prev'
  end.

Definition removeFile (i : string) (w : World) : World :=
  let prev := files w in
  let updatedFiles := filter_out_id i prev in
  let removedFile := find_by_id i prev in
  let w1 :=
    match removedFile ≫= preview with
    | Some h => revokeObjectURL h w
    | None => w
    end in
  setFiles (λ _, updatedFiles) w1.

(** [{ ...file, ...updates }]. *)
Definition spread (f : FileState) (u : Updates) : FileState :=
  {| id := id f; file := file f; type := type f; preview := preview f;
     outputFilename := default (outputFilename f) (upd_outputFilename u);
     width := match upd_width u with Some v => Some v | None => width f end;
     height := match upd_height u with Some v => Some v | None => height f end |}.

Definition updateFileSettings (i : string) (updates : Updates) (w : World) : World :=
  setFiles (map (λ f, if decide (id f = i) then spread f updates else f)) w.

(** ** Promises *)

(** How a promise ends up: fulfilled, rejected, or never settled. *)
Inductive outcome (A : Type) :=
  | Resolved (a : A)
  | Rejected (e : string)
  | Pending.
Arguments Resolved {A} a.
Arguments Rejected {A} e.
Arguments Pending {A}.

(** An asynchronous computation: the world it leaves and how it settles. *)
Definition Async (A : Type) : Type := World → World * outcome A.

(** [return a] of an async function. *)
Definition async_ret {A} (a : A) : Async A := λ w, (w, Resolved a).

(** [const x = await m; k x]: the continuation runs only once [m] is
    fulfilled; a rejection propagates, a promise that never settles suspends
    the caller for good. *)
Definition await {A B} (m : Async A) (k : A → Async B) : Async B :=
  λ w, match m w with
       | (w', Resolved a) => k a w'
       | (w', Rejected e) => (w', Rejected e)
       | (w', Pending) => (w', Pending)
       end.

Notation "'let!' x ':=' m 'in' k" := (await m (λ x, k))
  (at level 10, x pattern, m at level 100, k at level 200, only parsing).

(** A promise that is already settled (or will never be). *)
Definition settled {A} (o : outcome A) : Async A := λ w, (w, o).

(** [try { body } catch (error) { handler error } finally { fin }]; neither
    [handler] nor [fin] runs while [body] is suspended. *)
Definition try_catch_finally (body : Async unit)
    (handler : string → World → World) (fin : World → World) : Async unit :=
  λ w, match body w with
       | (w', Resolved _) => (fin w', Resolved tt)
       | (w', Rejected e) => (fin (handler e w'), Resolved tt)
       | (w', Pending) => (w', Pending)
       end.

(** [for (const x of xs) { await f(x); }]. *)
Fixpoint for_of {A} (xs : list A) (f : A → Async unit) : Async unit :=
  match xs with
  | [] => async_ret tt
  | x :: xs' => let! _ := f x in for_of xs' f
  end.

(** [xs.map(f)] for an async [f]: every call is issued, so the effects of
    each one take place whatever becomes of the others.  The calls' callbacks
    are run here in the order of the list. *)
Fixpoint map_async {A B} (f : A → Async B) (xs : list A)
    (w : World) : World * list (outcome B) :=
  match xs with
  | [] => (w, [])
  | x :: xs' =>
      let '(w1, o) := f x w in
      let '(w2, os) := map_async f xs' w1 in
      (w2, o :: os)
  end.

(** How [Promise.all] settles: rejected as soon as one input is, otherwise
    unsettled while one input is, otherwise fulfilled with all the values in
    the order of the inputs.  Of several rejections the browser reports the
    earliest in time; here the first in the list stands for it. *)
Fixpoint promise_all {A} (os : list (outcome A)) : outcome (list A) :=
  match os with
  | [] => Resolved []
  | o :: os' =>
      match o, promise_all os' with
      | Rejected e, _ => Rejected e
      | _, Rejected e => Rejected e
      | Pending, _ => Pending
      | _, Pending => Pending
      | Resolved a, Resolved l => Resolved (a :: l)
      end
  end.

(** ** External collaborators

    What the browser and the two libraries answer is not decided by the
    repository; the components are defined over any such answers. *)
Class Browser := {
  (** the string [Math.random().toString(36)] evaluates to at its [n]-th call *)
  random36 : nat → string;
  (** the image decoder behind [img.src = url]: [Some] when the [load] event
      fires, [None] when the [error] event does *)
  decode : Blob → option Image;
  (** whether [canvas.toBlob] hands a blob (rather than [null]) to its
      callback for this bitmap and requested type *)
  encodes : Canvas → string → bool;
  (** pdf-lib: [PDFDocument.load(bytes)] and [doc.save({ useObjectStreams })] *)
  PdfDoc : Type;
  pdf_load : string → outcome PdfDoc;
  pdf_save : PdfDoc → bool → outcome string;
}.

Section Shared.
Context `{Browser}.

(** [Math.random().toString(36).substring(7)]. *)
Definition random_id (w : World) : string * World :=
  (JsString.substring 7 (random36 (random_calls w)), count_random w).

(** [name.split('.').pop() || 'png']: the empty string and [undefined] are
    the falsy values [pop] can return. *)
Definition extension_of (name : string) : string :=
  match last (JsString.split "." name) with
  | Some seg => if decide (seg = "") then "png" else seg
  | None => "png"
  end.

(** [img.src = src]: the image the [onload] callback receives, if it is
    ever called. *)
Definition load_image (src : option handle) : option Image :=
  match src with
  | Some h => match url_target h with
              | RBlob b => decode b
              | RZip _ => None
              end
  | None => None
  end.

(** The size a canvas takes when [v] is assigned to its [width] or [height]:
    both are [unsigned long] attributes reflecting a content attribute.  The
    assigned value is converted to an unsigned long ([undefined] gives 0, an
    integer is taken modulo 2^32), and a result above 2147483647 is replaced
    by the attribute's default, 300 for the width and 150 for the height. *)
Definition canvas_size (default : Z) (v : option Z) : Z :=
  match v with
  | None => 0
  | Some z =>
      let u := z mod 4294967296 in
      if u <=? 2147483647 then u else default
  end.

(** [canvas.width = v]. *)
Definition assign_width (v : option Z) (c : Canvas) : Canvas :=
  {| canvas_width := Some (canvas_size 300 v);
     canvas_height := canvas_height c; canvas_drawn := [] |}.

(** [canvas.height = v]. *)
Definition assign_height (v : option Z) (c : Canvas) : Canvas :=
  {| canvas_width := canvas_width c;
     canvas_height := Some (canvas_size 150 v); canvas_drawn := [] |}.

Definition drawImage (img : Image) (dx dy : Z) (dw dh : option Z)
    (c : Canvas) : Canvas :=
  {| canvas_width := canvas_width c; canvas_height := canvas_height c;
     canvas_drawn := canvas_drawn c ++
       [{| draw_image := img; draw_dx := dx; draw_dy := dy;
           draw_dw := dw; draw_dh := dh |}] |}.

(** The first statements of both [onload] callbacks:
    [canvas.width = fileState.width; canvas.height = fileState.height;
     ctx.drawImage(img, 0, 0, fileState.width, fileState.height)]. *)
Definition rasterize (fileState : FileState) (img : Image) (c : Canvas) : Canvas :=
  drawImage img 0 0 (width fileState) (height fileState)
    (assign_height (height fileState) (assign_width (width fileState) c)).

(** [canvas.toBlob(callback, ty)]: the argument the callback receives; the
    bitmap is copied when [toBlob] is called. *)
Definition toBlob (c : Canvas) (ty : string) : option Blob :=
  if encodes c ty then Some (CanvasBlob ty c) else None.

(** Pixel size of the picture a blob holds. *)
Definition blob_dimensions (b : Blob) : option (option Z * option Z) :=
  match b with
  | CanvasBlob _ c => Some (canvas_width c, canvas_height c)
  | FileBlob f => (λ img, (Some (naturalWidth img), Some (naturalHeight img))) <$> decode b
  | PdfBlob _ => None
  end.

End Shared.

(** *** The batch component ([src/App.jsx]) *)

Module Batch.
Section Batch.
Context `{Browser}.

(** The callback of [selectedFiles.map] in [handleFileChange]. *)
Definition newFile (f : File) (w : World) : FileState * World :=
  let type := if JsString.startsWith "image/" (file_type f) then image else pdf in
  let nameWithoutExt := JsString.strip_extension (file_name f) in
  let '(i, w1) := random_id w in
  let '(pv, w2) :=
    match type with
    | image => let '(h, w') := createObjectURL (RBlob (FileBlob f)) w1 in (Some h, w')
    | pdf => (None, w1)
    end in
  ({| id := i; file := f; type := Some type; preview := pv;
      outputFilename := nameWithoutExt;
      width := match type with image => Some 800 | pdf => None end;
      height := match type with image => Some 600 | pdf => None end |}, w2).

(** [selectedFiles.map(...)]. *)
Fixpoint newFiles (selectedFiles : list File) (w : World) : list FileState * World :=
  match selectedFiles with
  | [] => ([], w)
  | f :: rest =>
      let '(e, w1) := newFile f w in
      let '(es, w2) := newFiles rest w1 in
      (e :: es, w2)
  end.

Definition handleFileChange (selectedFiles : list File) (w : World) : World :=
  let '(new, w1) := newFiles selectedFiles w in
  setFiles (λ prev, prev ++ new) w1.

(** [processFile]: the document branch awaits pdf-lib; the other branch
    returns a promise whose executor receives [resolve] only, called from
    the [toBlob] callback under [if (blob)]. *)
Definition processFile (fileState : FileState) : Async (Blob * string) :=
  match type fileState with
  | Some pdf =>
      let! arrayBuffer := async_ret (file_bytes (file fileState)) in
      let! pdfDoc := settled (pdf_load arrayBuffer) in
      let! compressedPdfBytes := settled (pdf_save pdfDoc false) in
      async_ret (PdfBlob compressedPdfBytes,
                 outputFilename fileState +:+ ".pdf")
  | _ =>
      λ w,
        match load_image (preview fileState) with
        | None => (w, Pending)
        | Some img =>
            let w1 := set_canvas (rasterize fileState img (canvas w)) w in
            match toBlob (canvas w1) (file_type (file fileState)) with
            | None => (w1, Pending)
            | Some blob =>
                let extension := extension_of (file_name (file fileState)) in
                (w1, Resolved (blob, outputFilename fileState +:+ "." +:+ extension))
            end
        end
  end.

(** [zip.file(filename, blob)]: the entry JSZip stores under the name of the
    file in its name-indexed [files] object, replacing any entry of that
    name.  For a name that contains a slash JSZip also creates entries for
    the folders on its path; the map holds the entries of files only. *)
Definition zip_file (filename : string) (blob : Blob)
    (zip : gmap string Blob) : gmap string Blob :=
  <[filename := blob]> zip.

(** [processedFiles.forEach(({ blob, filename }) => zip.file(filename, blob))]. *)
Definition zip_all (processedFiles : list (Blob * string))
    (zip : gmap string Blob) : gmap string Blob :=
  foldl (λ z bf, zip_file bf.2 bf.1 z) zip processedFiles.

(** The [try] block of [processAndDownload]: [new JSZip()],
    [await Promise.all(files.map(processFile))], the [forEach] that fills the
    archive, [await zip.generateAsync({ type: 'blob' })], and the download
    through a temporary object URL. *)
Definition package (fs : list FileState) : Async unit :=
  let zip := (∅ : gmap string Blob) in
  let! processedFiles :=
    (λ w, let '(w', os) := map_async processFile fs w in (w', promise_all os)) in
  let zip := zip_all processedFiles zip in
  let! zipBlob := async_ret (RZip zip) in
  λ w, let '(url, w1) := createObjectURL zipBlob w in
       let w2 := click_download "processed_files.zip" url w1 in
       (revokeObjectURL url w2, Resolved tt).

Definition processAndDownload : Async unit :=
  λ w,
    if bool_decide (length (files w) = 0%nat) then (w, Resolved tt)
    else
      try_catch_finally (package (files w))
        (console_error "Error processing files:")
        (setProcessing false)
        (setProcessing true w).

End Batch.
End Batch.

(** *** The image-only component *)

Module ImageOnly.
Section ImageOnly.
Context `{Browser}.

(** The callback of [selectedFiles.map] in [handleFileChange]. *)
Definition newFile (f : File) (w : World) : FileState * World :=
  let nameWithoutExt := JsString.strip_extension (file_name f) in
  let '(i, w1) := random_id w in
  let '(h, w2) := createObjectURL (RBlob (FileBlob f)) w1 in
  ({| id := i; file := f; type := None; preview := Some h;
      outputFilename := nameWithoutExt;
      width := Some 800; height := Some 600 |}, w2).

Fixpoint newFiles (selectedFiles : list File) (w : World) : list FileState * World :=
  match selectedFiles with
  | [] => ([], w)
  | f :: rest =>
      let '(e, w1) := newFile f w in
      let '(es, w2) := newFiles rest w1 in
      (e :: es, w2)
  end.

Definition handleFileChange (selectedFiles : list File) (w : World) : World :=
  let '(new, w1) := newFiles selectedFiles w in
  setFiles (λ prev, prev ++ new) w1.

(** [processAndDownloadImage]: a promise whose executor receives [resolve]
    only; the [toBlob] callback downloads the blob through a temporary
    object URL and then resolves, all under [if (blob)]. *)
Definition processAndDownloadImage (fileState : FileState) : Async unit :=
  λ w,
    match load_image (preview fileState) with
    | None => (w, Pending)
    | Some img =>
        let w1 := set_canvas (rasterize fileState img (canvas w)) w in
        match toBlob (canvas w1) (file_type (file fileState)) with
        | None => (w1, Pending)
        | Some blob =>
            let extension := extension_of (file_name (file fileState)) in
            let filename := outputFilename fileState +:+ "." +:+ extension in
            let '(url, w2) := createObjectURL (RBlob blob) w1 in
            let w3 := click_download filename url w2 in
            (revokeObjectURL url w3, Resolved tt)
        end
    end.

Definition handleProcessAndDownload : Async unit :=
  λ w,
    if bool_decide (length (files w) = 0%nat) then (w, Resolved tt)
    else
      try_catch_finally (for_of (files w) processAndDownloadImage)
        (console_error "Error processing image:")
        (setProcessing false)
        (setProcessing true w).

End ImageOnly.
End ImageOnly.

(** ** A concrete browser

    Used to run the components on explicit inputs.  A file decodes when its
    bytes start with the PNG marker; the encoder gives up on bitmaps of more
    than 16384 x 16384 pixels; a document parses when its bytes start with
    the PDF marker.  The first two random draws are the renderings of 0.5
    and 0.25 in base 36. *)
Definition sample_random36 (n : nat) : string :=
  match n with
  | 0%nat => "0.i"
  | 1%nat => "0.9"
  | 2%nat => "0.4fzyo82mvyr"
  | _ => "0.l7x2kd9q1ab"
  end.

Definition sample_decode (b : Blob) : option Image :=
  match b with
  | FileBlob f =>
      if String.prefix "PNG" (file_bytes f)
      then Some {| naturalWidth := 1024; naturalHeight := 768;
                   image_pixels := file_bytes f |}
      else None
  | _ => None
  end.

Definition sample_encodes (c : Canvas) (ty : string) : bool :=
  match canvas_width c, canvas_height c with
  | Some w, Some h => (0 <? w) && (0 <? h) && (w * h <=? 268435456)
  | _, _ => false
  end.

Definition sample_browser : Browser :=
  {| random36 := sample_random36;
     decode := sample_decode;
     encodes := sample_encodes;
     PdfDoc := string;
     pdf_load bytes :=
       if String.prefix "%PDF" bytes then Resolved bytes
       else Rejected "Failed to parse PDF document";
     pdf_save doc _ := Resolved doc |}.

Definition png_file (name : string) : File :=
  {| file_name := name; file_type := "image/png"; file_size := 3;
     file_bytes := "PNG" |}.

Definition broken_file (name : string) : File :=
  {| file_name := name; file_type := "image/png"; file_size := 4;
     file_bytes := "oops" |}.

Definition pdf_file (name : string) : File :=
  {| file_name := name; file_type := "application/pdf"; file_size := 4;
     file_bytes := "%PDF" |}.

(** An image entry as intake builds it, with chosen id, name and size. *)
Definition image_entry (i : string) (n : nat) (f : File) (out : string)
    (w h : Z) : FileState :=
  {| id := i; file := f; type := Some image;
     preview := Some {| url_serial := n; url_target := RBlob (FileBlob f) |};
     outputFilename := out; width := Some w; height := Some h |}.

Definition with_files (fs : list FileState) : World := setFiles (λ _, fs) initial.

(** A document entry as the batch component's intake builds it. *)
Definition pdf_entry (i : string) (f : File) (out : string) : FileState :=
  {| id := i; file := f; type := Some pdf; preview := None;
     outputFilename := out; width := None; height := None |}.

(** The blob the sample browser encodes for a PNG file resized to [tw] x [th]. *)
Definition sample_blob (tw th : Z) : Blob :=
  CanvasBlob "image/png"
    {| canvas_width := Some tw; canvas_height := Some th;
       canvas_drawn :=
         [{| draw_image := {| naturalWidth := 1024; naturalHeight := 768;
                              image_pixels := "PNG" |};
             draw_dx := 0; draw_dy := 0;
             draw_dw := Some tw; draw_dh := Some th |}] |}.

(** ** Auxiliary notions used to state the properties *)

(** The ids intake draws for [n] files when [start] calls of [Math.random]
    have been made before. *)
Definition drawn_ids `{Browser} (start n : nat) : list string :=
  (λ k, JsString.substring 7 (random36 k)) <$> seq start n.

(** The blob the [toBlob] callback of an image entry receives, when the
    image loads and the encoder delivers; the bitmap it snapshots does not
    depend on what the shared canvas held before (see [rasterize_fresh]). *)
Definition render `{Browser} (f : FileState) : option Blob :=
  img ← load_image (preview f);
  toBlob (rasterize f img blank_canvas) (file_type (file f)).

(** The artifact (blob and filename) of an image entry. *)
Definition image_artifact `{Browser} (f : FileState) : option (Blob * string) :=
  (λ blob, (blob, outputFilename f +:+ "." +:+ extension_of (file_name (file f))))
    <$> render f.

(** The downloads a list of image entries gives rise to, in order. *)
Definition emitted `{Browser} (fs : list FileState) : list (string * Resource) :=
  omap (λ f, (λ a : Blob * string, (a.2, RBlob a.1)) <$> image_artifact f) fs.

(** No character of the string is a dot. *)
Fixpoint dotless (s : string) : bool :=
  match s with
  | EmptyString => true
  | String c s' => negb (bool_decide (c = "."%char)) && dotless s'
  end.

(** ** The rendered controls

    The parts of the two [return (...)] blocks that decide behaviour: the
    extension shown beside the output name, the [disabled] attribute of the
    button and its [onClick].  A run started by the button is taken as one
    step: no other handler runs while it is in progress. *)

Module JsTrim.

(** White space and line terminators of JavaScript among the characters of
    the model, read as code units below 256: tab, line feed, vertical tab,
    form feed, carriage return, space and no-break space. *)
Definition is_space (c : ascii) : bool :=
  bool_decide (nat_of_ascii c ∈ [9; 10; 11; 12; 13; 32; 160]%nat).

Fixpoint trimStart (s : string) : string :=
  match s with
  | EmptyString => EmptyString
  | String c s' => if is_space c then trimStart s' else s
  end.

(** [s.trim()]. *)
Definition trim (s : string) : string :=
  String.rev (trimStart (String.rev (trimStart s))).

End JsTrim.

(** What the user can do to a mounted component. *)
Inductive action :=
  | SelectFiles (selectedFiles : list File)
  | ClickRemove (i : string)
  | EditSettings (i : string) (updates : Updates)
  | ClickProcess.

Module BatchView.
Section BatchView.
Context `{Browser}.

(** [fileState.type === 'pdf' ? '.pdf' : fileState.file.name.split('.').pop()]. *)
Definition extension_label (fileState : FileState) : string :=
  match type fileState with
  | Some pdf => ".pdf"
  | _ => default EmptyString (last (JsString.split "." (file_name (file fileState))))
  end.

(** [processing || files.length === 0
     || files.some((f) => !f.outputFilename.trim())]. *)
Definition disabled (w : World) : bool :=
  processing w
  || bool_decide (length (files w) = 0%nat)
  || existsb (λ f, bool_decide (JsTrim.trim (outputFilename f) = EmptyString))
             (files w).

(** [onClick={processAndDownload}]: a disabled button dispatches no click. *)
Definition click (w : World) : World :=
  if disabled w then w else (Batch.processAndDownload w).1.

Definition step (a : action) (w : World) : World :=
  match a with
  | SelectFiles sel => Batch.handleFileChange sel w
  | ClickRemove i => removeFile i w
  | EditSettings i u => updateFileSettings i u w
  | ClickProcess => click w
  end.

End BatchView.
End BatchView.

Module ImageOnlyView.
Section ImageOnlyView.
Context `{Browser}.

(** [.{fileState.file.name.split('.').pop()}]. *)
Definition extension_label (fileState : FileState) : string :=
  "." +:+ default EmptyString
            (last (JsString.split "." (file_name (file fileState)))).

(** [processing || files.length === 0]. *)
Definition disabled (w : World) : bool :=
  processing w || bool_decide (length (files w) = 0%nat).

(** [onClick={handleProcessAndDownload}]. *)
Definition click (w : World) : World :=
  if disabled w then w else (ImageOnly.handleProcessAndDownload w).1.

Definition step (a : action) (w : World) : World :=
  match a with
  | SelectFiles sel => ImageOnly.handleFileChange sel w
  | ClickRemove i => removeFile i w
  | EditSettings i u => updateFileSettings i u w
  | ClickProcess => click w
  end.

End ImageOnlyView.
End ImageOnlyView.

(** ** Further notions used to state properties *)

(** [{ ...u1, ...u2 }] on update objects. *)
Definition merge_updates (u1 u2 : Updates) : Updates :=
  {| upd_outputFilename :=
       match upd_outputFilename u2 with
       | Some s => Some s | None => upd_outputFilename u1 end;
     upd_width :=
       match upd_width u2 with Some v => Some v | None => upd_width u1 end;
     upd_height :=
       match upd_height u2 with Some v => Some v | None => upd_height u1 end |}.

(** The preview handles the entries of the store hold. *)
Definition previews (w : World) : list handle := omap preview (files w).

(** Every preview held in the store is an object URL that has been created,
    has not been revoked, and is held by no other entry; every revoked URL
    had been created. *)
Definition handles_live (w : World) : Prop :=
  NoDup (url_serial <$> previews w)
  ∧ Forall (λ h, (url_serial h < object_urls w)%nat ∧ h ∉ revoked w) (previews w)
  ∧ Forall (λ h, (url_serial h < object_urls w)%nat) (revoked w).

(** Every object URL created so far is a preview held in the store or has
    been revoked. *)
Definition handles_accounted (w : World) : Prop :=
  object_urls w = (length (previews w) + length (revoked w))%nat.

(** No character of the string is a slash. *)
Fixpoint slashless (s : string) : bool :=
  match s with
  | EmptyString => true
  | String c s' => negb (bool_decide (c = "/"%char)) && slashless s'
  end.

(** The temporary object URLs a sequence of downloads goes through, the
    first one being the [start]-th URL created. *)
Definition download_urls (start : nat) (ds : list (string * Resource)) : list handle :=
  imap (λ k d, {| url_serial := start + k; url_target := d.2 |}) ds.

(** Nothing was revoked, downloaded or logged between [w] and [w'], and the
    busy flag and the canvas are as they were. *)
Definition effects_unchanged (w w' : World) : Prop :=
  revoked w' = revoked w ∧ downloads w' = downloads w
  ∧ console w' = console w ∧ processing w' = processing w
  ∧ canvas w' = canvas w.

(** The declared MIME type makes the batch component treat a file as an
    image. *)
Definition declared_image (f : File) : bool :=
  JsString.startsWith "image/" (file_type f).

(** * Properties *)

(** ** The entry store *)

Section Store.
Implicit Types (w : World) (i : string) (f : FileState) (l : list FileState).

Lemma filter_out_id_absent i l : i ∉ id <$> l → filter_out_id i l = l.
Proof.
  induction l as [|f l IH]; simpl; [done|].
  intros Hn. apply not_elem_of_cons in Hn as [Hne Hn].
  destruct (decide (id f = i)) as [Heq|_]; [by destruct Hne|].
  by rewrite IH.
Qed.

Lemma find_by_id_absent i l : i ∉ id <$> l → find_by_id i l = None.
Proof.
  induction l as [|f l IH]; simpl; [done|].
  intros Hn. apply not_elem_of_cons in Hn as [Hne Hn].
  destruct (decide (id f = i)) as [Heq|_]; [by destruct Hne|auto].
Qed.

Lemma filter_out_id_gone i l : i ∉ id <$> filter_out_id i l.
Proof.
  induction l as [|f l IH]; simpl; [apply not_elem_of_nil|].
  destruct (decide (id f = i)) as [|Hne]; [done|].
  simpl. apply not_elem_of_cons. split; [congruence|done].
Qed.

Lemma filter_out_id_app i l1 l2 :
  filter_out_id i (l1 ++ l2) = filter_out_id i l1 ++ filter_out_id i l2.
Proof.
  induction l1 as [|f l1 IH]; simpl; [done|].
  destruct (decide (id f = i)); by rewrite IH.
Qed.

Lemma find_by_id_app_absent i l1 l2 :
  i ∉ id <$> l1 → find_by_id i (l1 ++ l2) = find_by_id i l2.
Proof.
  induction l1 as [|f l1 IH]; simpl; [done|].
  intros Hn. apply not_elem_of_cons in Hn as [Hne Hn].
  destruct (decide (id f = i)) as [Heq|_]; [by destruct Hne|auto].
Qed.

Lemma filter_out_id_sublist i l : sublist (filter_out_id i l) l.
Proof.
  induction l as [|f l IH]; simpl; [constructor|].
  destruct (decide (id f = i)); by constructor.
Qed.

(** With pairwise distinct ids, the entry carrying [i] is the only one
    [filter] drops and the one [find] returns. *)
Lemma remove_unique i pre f post :
  NoDup (id <$> (pre ++ f :: post)) → id f = i →
  filter_out_id i (pre ++ f :: post) = pre ++ post
  ∧ find_by_id i (pre ++ f :: post) = Some f.
Proof.
  intros Hnd Hid.
  rewrite fmap_app, fmap_cons in Hnd.
  apply NoDup_app in Hnd as (_ & Hdisj & Hnd).
  apply NoDup_cons in Hnd as [Hpost _].
  assert (i ∉ id <$> pre) as Hpre.
  { intros Hin. apply (Hdisj _ Hin). rewrite Hid. left. }
  rewrite Hid in Hpost.
  split.
  - rewrite filter_out_id_app. simpl.
    rewrite decide_True by done.
    by rewrite !filter_out_id_absent.
  - rewrite find_by_id_app_absent by done. simpl.
    by rewrite decide_True.
Qed.

Lemma setFiles_same w l : l = files w → setFiles (λ _, l) w = w.
Proof. intros ->. by destruct w. Qed.

Lemma update_ids i u l :
  id <$> map (λ f, if decide (id f = i) then spread f u else f) l = id <$> l.
Proof.
  induction l as [|f l IH]; [done|].
  change (id (if decide (id f = i) then spread f u else f)
            :: (id <$> map (λ f, if decide (id f = i) then spread f u else f) l)
          = id f :: (id <$> l)).
  rewrite IH. by destruct (decide (id f = i)).
Qed.

Lemma update_absent i u l :
  i ∉ id <$> l → map (λ f, if decide (id f = i) then spread f u else f) l = l.
Proof.
  induction l as [|f l IH]; [done|].
  rewrite fmap_cons. intros Hn. apply not_elem_of_cons in Hn as [Hne Hn].
  simpl. rewrite decide_False by congruence. by rewrite IH.
Qed.

End Store.

(** C6 (amended).  In a store whose ids are pairwise distinct, [removeFile i]
    changes nothing when no entry has id [i]; when an entry has it, exactly
    that entry is deleted (the entries before and after it stay, in their
    order and with their settings), [i] is absent afterwards, and the
    entry's preview handle, if it has one, is revoked exactly once. *)
Theorem removeFile_deletes_and_revokes (w : World) (i : string) :
  NoDup (id <$> files w) →
  (i ∉ id <$> files w → removeFile i w = w)
  ∧ (∀ pre f post, files w = pre ++ f :: post → id f = i →
       files (removeFile i w) = pre ++ post
       ∧ (i ∉ id <$> files (removeFile i w))
       ∧ (revoked (removeFile i w)
          = revoked w ++ match preview f with Some h => [h] | None => [] end)).
Proof.
  intros Hnd. split.
  - intros Hn. unfold removeFile.
    rewrite find_by_id_absent by done. simpl.
    apply setFiles_same. by apply filter_out_id_absent.
  - intros pre f post Hw Hid.
    rewrite Hw in Hnd.
    destruct (remove_unique i pre f post Hnd Hid) as [Hfilter Hfind].
    assert (files (removeFile i w) = pre ++ post) as Hfiles.
    { unfold removeFile. rewrite Hw, Hfilter.
      by destruct (find_by_id i (pre ++ f :: post) ≫= preview). }
    split; [done|]. split.
    + rewrite Hfiles, <- Hfilter. apply filter_out_id_gone.
    + unfold removeFile. rewrite Hw, Hfind. simpl.
      destruct (preview f); simpl; [done|by rewrite app_nil_r].
Qed.

Lemma removeFile_deletes_and_revokes_witness :
  let w := with_files [image_entry "x" 0 (png_file "a.png") "a" 800 600;
                       image_entry "y" 1 (png_file "b.png") "b" 640 480;
                       image_entry "z" 2 (png_file "c.png") "c" 800 600] in
  NoDup (id <$> files w)
  ∧ files (removeFile "y" w)
    = [image_entry "x" 0 (png_file "a.png") "a" 800 600;
       image_entry "z" 2 (png_file "c.png") "c" 800 600]
  ∧ revoked (removeFile "y" w)
    = [{| url_serial := 1; url_target := RBlob (FileBlob (png_file "b.png")) |}].
Proof.
  intros w.
  assert (NoDup (id <$> files w)) as Hnd.
  { apply (bool_decide_unpack _). vm_compute. exact I. }
  split; [exact Hnd|].
  destruct (removeFile_deletes_and_revokes w "y" Hnd) as [_ Hrm].
  destruct (Hrm [image_entry "x" 0 (png_file "a.png") "a" 800 600]
                (image_entry "y" 1 (png_file "b.png") "b" 640 480)
                [image_entry "z" 2 (png_file "c.png") "c" 800 600]
                eq_refl eq_refl) as (Hfiles & _ & Hrev).
  split; [exact Hfiles|exact Hrev].
Defined.

(** C6 as stated fails in a store where two entries carry the same id, which
    intake can produce: both entries are deleted and only the first one's
    preview handle is revoked. *)
Lemma removeFile_shared_id_counterexample :
  let w := @ImageOnly.handleFileChange sample_browser
             [png_file "a.png"; png_file "b.png"] initial in
  let ha := {| url_serial := 0; url_target := RBlob (FileBlob (png_file "a.png")) |} in
  let hb := {| url_serial := 1; url_target := RBlob (FileBlob (png_file "b.png")) |} in
  (id <$> files w) = [""; ""]
  ∧ (preview <$> files w) = [Some ha; Some hb]
  ∧ files (removeFile "" w) = []
  ∧ revoked (removeFile "" w) = [ha]
  ∧ hb ∉ revoked (removeFile "" w).
Proof.
  repeat split; try reflexivity.
  vm_compute. intros Hin. apply list_elem_of_In in Hin.
  destruct Hin as [Heq|[]]. discriminate Heq.
Qed.

(** C7.  [updateFileSettings i u] keeps the length of the store and, position
    by position, the id, source file, kind and preview handle of every
    entry; an entry with another id is left as it is; on an entry with id
    [i] each setting named in [u] is replaced and each setting not named is
    kept.  Nothing is revoked and no object URL is created, and when no
    entry has id [i] the world is unchanged. *)
Theorem updateFileSettings_frame (w : World) (i : string) (u : Updates) :
  length (files (updateFileSettings i u w)) = length (files w)
  ∧ (∀ (n : nat) f, files w !! n = Some f →
       ∃ f', files (updateFileSettings i u w) !! n = Some f'
         ∧ id f' = id f ∧ file f' = file f ∧ type f' = type f
         ∧ preview f' = preview f
         ∧ (id f ≠ i → f' = f)
         ∧ (id f = i →
              outputFilename f'
                = match upd_outputFilename u with
                  | Some s => s | None => outputFilename f end
              ∧ width f'
                = match upd_width u with Some v => Some v | None => width f end
              ∧ height f'
                = match upd_height u with Some v => Some v | None => height f end))
  ∧ (i ∉ id <$> files w → updateFileSettings i u w = w)
  ∧ revoked (updateFileSettings i u w) = revoked w
  ∧ object_urls (updateFileSettings i u w) = object_urls w
  ∧ downloads (updateFileSettings i u w) = downloads w
  ∧ processing (updateFileSettings i u w) = processing w.
Proof.
  split; [apply length_map|].
  split.
  { intros n f Hn. unfold updateFileSettings. simpl.
    exists (if decide (id f = i) then spread f u else f).
    split.
    { change (map ?g ?l) with (g <$> l).
      by rewrite list_lookup_fmap, Hn. }
    destruct (decide (id f = i)) as [Heq|Hne]; simpl;
      repeat split; done. }
  split.
  { intros Hn. unfold updateFileSettings, setFiles.
    rewrite update_absent by done. by destruct w. }
  done.
Qed.

(** ** Intake and the uniqueness of ids *)

Section Intake.
Context `{Browser}.

Lemma batch_newFile_facts f w :
  id (Batch.newFile f w).1 = JsString.substring 7 (random36 (random_calls w))
  ∧ random_calls (Batch.newFile f w).2 = S (random_calls w)
  ∧ files (Batch.newFile f w).2 = files w.
Proof.
  unfold Batch.newFile, random_id.
  by destruct (JsString.startsWith "image/" (file_type f)).
Qed.

Lemma image_newFile_facts f w :
  id (ImageOnly.newFile f w).1 = JsString.substring 7 (random36 (random_calls w))
  ∧ random_calls (ImageOnly.newFile f w).2 = S (random_calls w)
  ∧ files (ImageOnly.newFile f w).2 = files w.
Proof. done. Qed.

Lemma drawn_ids_S start n :
  drawn_ids start (S n)
  = JsString.substring 7 (random36 start) :: drawn_ids (S start) n.
Proof. done. Qed.

Lemma batch_newFiles_ids sel : ∀ w,
  (id <$> (Batch.newFiles sel w).1) = drawn_ids (random_calls w) (length sel)
  ∧ files (Batch.newFiles sel w).2 = files w.
Proof.
  induction sel as [|f sel IH]; intros w; [done|].
  destruct (batch_newFile_facts f w) as (Hid & Hcalls & Hfiles).
  cbn [Batch.newFiles length]. rewrite drawn_ids_S.
  destruct (Batch.newFile f w) as [e w1]. cbn [fst snd] in *.
  destruct (IH w1) as [Hids Hfiles1].
  destruct (Batch.newFiles sel w1) as [es w2]. cbn [fst snd] in *.
  rewrite fmap_cons, Hid, Hids, Hcalls. split; [done|congruence].
Qed.

Lemma image_newFiles_ids sel : ∀ w,
  (id <$> (ImageOnly.newFiles sel w).1) = drawn_ids (random_calls w) (length sel)
  ∧ files (ImageOnly.newFiles sel w).2 = files w.
Proof.
  induction sel as [|f sel IH]; intros w; [done|].
  destruct (image_newFile_facts f w) as (Hid & Hcalls & Hfiles).
  cbn [ImageOnly.newFiles length]. rewrite drawn_ids_S.
  destruct (ImageOnly.newFile f w) as [e w1]. cbn [fst snd] in *.
  destruct (IH w1) as [Hids Hfiles1].
  destruct (ImageOnly.newFiles sel w1) as [es w2]. cbn [fst snd] in *.
  rewrite fmap_cons, Hid, Hids, Hcalls. split; [done|congruence].
Qed.

Lemma batch_handleFileChange_ids sel w :
  (id <$> files (Batch.handleFileChange sel w))
  = (id <$> files w) ++ drawn_ids (random_calls w) (length sel).
Proof.
  unfold Batch.handleFileChange.
  destruct (batch_newFiles_ids sel w) as [Hids Hfiles].
  destruct (Batch.newFiles sel w) as [new w1]. simpl in *.
  by rewrite fmap_app, Hids, Hfiles.
Qed.

Lemma image_handleFileChange_ids sel w :
  (id <$> files (ImageOnly.handleFileChange sel w))
  = (id <$> files w) ++ drawn_ids (random_calls w) (length sel).
Proof.
  unfold ImageOnly.handleFileChange.
  destruct (image_newFiles_ids sel w) as [Hids Hfiles].
  destruct (ImageOnly.newFiles sel w) as [new w1]. simpl in *.
  by rewrite fmap_app, Hids, Hfiles.
Qed.

Lemma NoDup_append_fresh (old new : list string) :
  NoDup old →
  NoDup (old ++ new) ↔ NoDup new ∧ ∀ i, i ∈ new → i ∉ old.
Proof.
  intros Hold. rewrite NoDup_app. split.
  - intros (_ & Hdisj & Hnew). split; [done|].
    intros i Hi Ho. by apply (Hdisj i).
  - intros [Hnew Hdisj]. split; [done|]. split; [|done].
    intros i Ho Hi. by apply (Hdisj i).
Qed.

End Intake.

(** ** Processing one entry *)

Section Processing.
Context `{Browser}.
Implicit Types (w : World) (f : FileState).

(** Assigning the size clears the shared canvas: what an entry draws and
    snapshots is the same whatever was processed before it. *)
Lemma rasterize_fresh f img (c : Canvas) :
  rasterize f img c
  = {| canvas_width := Some (canvas_size 300 (width f));
       canvas_height := Some (canvas_size 150 (height f));
       canvas_drawn := [{| draw_image := img; draw_dx := 0; draw_dy := 0;
                           draw_dw := width f; draw_dh := height f |}] |}.
Proof. done. Qed.

(** A size from 0 to 2147483647 is taken as it is. *)
Lemma canvas_size_in_range (default z : Z) :
  0 <= z <= 2147483647 → canvas_size default (Some z) = z.
Proof.
  intros Hz. unfold canvas_size.
  rewrite Z.mod_small by lia. cbv zeta.
  destruct (z <=? 2147483647) eqn:Hle; [done|].
  apply Z.leb_gt in Hle. lia.
Qed.

Lemma render_Some f blob :
  render f = Some blob ↔
  ∃ img, load_image (preview f) = Some img
         ∧ encodes (rasterize f img blank_canvas) (file_type (file f)) = true
         ∧ blob = CanvasBlob (file_type (file f)) (rasterize f img blank_canvas).
Proof.
  unfold render, toBlob. split.
  - destruct (load_image (preview f)) as [img|]; simpl; [|done].
    destruct (encodes _ _) eqn:He; [|done].
    intros [= <-]. by exists img.
  - intros (img & -> & He & ->). simpl. by rewrite He.
Qed.

(** The image-only component on one entry: a download of the artifact and a
    fulfilled promise, or no download and a promise that never settles. *)
Lemma processAndDownloadImage_cases f w :
  match image_artifact f with
  | Some a =>
      ∃ w', ImageOnly.processAndDownloadImage f w = (w', Resolved tt)
            ∧ downloads w' = downloads w ++ [(a.2, RBlob a.1)]
            ∧ processing w' = processing w ∧ console w' = console w
            ∧ files w' = files w
            ∧ object_urls w' = S (object_urls w)
            ∧ revoked w'
              = revoked w ++ [{| url_serial := object_urls w;
                                 url_target := RBlob a.1 |}]
  | None =>
      ∃ w', ImageOnly.processAndDownloadImage f w = (w', Pending)
            ∧ downloads w' = downloads w
            ∧ processing w' = processing w ∧ console w' = console w
            ∧ files w' = files w
            ∧ object_urls w' = object_urls w ∧ revoked w' = revoked w
  end.
Proof.
  unfold image_artifact, render, ImageOnly.processAndDownloadImage.
  destruct (load_image (preview f)) as [img|]; simpl; [|by eexists].
  rewrite !rasterize_fresh.
  destruct (toBlob _ _) as [blob|]; simpl; by eexists.
Qed.

(** The batch component on one entry changes nothing but the canvas. *)
Lemma processFile_frame f w :
  let w' := (Batch.processFile f w).1 in
  downloads w' = downloads w ∧ processing w' = processing w
  ∧ console w' = console w ∧ files w' = files w
  ∧ object_urls w' = object_urls w ∧ revoked w' = revoked w.
Proof.
  unfold Batch.processFile.
  destruct (type f) as [[]|]; simpl.
  - destruct (load_image (preview f)); [|done]. simpl.
    by destruct (toBlob _ _).
  - unfold await, async_ret, settled.
    destruct (pdf_load _) as [doc| |]; [|done..].
    by destruct (pdf_save _ _).
  - destruct (load_image (preview f)); [|done]. simpl.
    by destruct (toBlob _ _).
Qed.

(** How its promise settles does not depend on the world it is started in. *)
Lemma processFile_outcome_indep f w w0 :
  (Batch.processFile f w).2 = (Batch.processFile f w0).2.
Proof.
  unfold Batch.processFile.
  destruct (type f) as [[]|]; simpl.
  - destruct (load_image (preview f)); [|done]. simpl.
    rewrite !rasterize_fresh. by destruct (toBlob _ _).
  - unfold await, async_ret, settled.
    destruct (pdf_load _) as [doc| |]; [|done..].
    by destruct (pdf_save _ _).
  - destruct (load_image (preview f)); [|done]. simpl.
    rewrite !rasterize_fresh. by destruct (toBlob _ _).
Qed.

(** For an entry that is not a document, the batch component settles the
    way [image_artifact] says. *)
Lemma processFile_image f w :
  type f ≠ Some pdf →
  (Batch.processFile f w).2
  = match image_artifact f with Some a => Resolved a | None => Pending end.
Proof.
  intros Hty. unfold Batch.processFile, image_artifact, render.
  destruct (type f) as [[]|]; [|done|]; simpl;
    (destruct (load_image (preview f)); [|done]); simpl;
    rewrite !rasterize_fresh; by destruct (toBlob _ _).
Qed.

End Processing.

(** ** Output file names *)

Section FileNames.

Lemma split_dotless s : dotless s = true → JsString.split "." s = [s].
Proof.
  induction s as [|c s IH]; simpl; [done|].
  intros [Hc Hs]%andb_prop.
  apply negb_true_iff, bool_decide_eq_false in Hc.
  rewrite decide_False by done. by rewrite IH.
Qed.

Lemma split_two sep a b :
  ∃ seg seg' segs, JsString.split sep (a +:+ String sep b) = seg :: seg' :: segs.
Proof.
  induction a as [|c a (seg & seg' & segs & IH)]; simpl.
  - rewrite decide_True by done.
    destruct b as [|c b]; simpl; [by eexists _, _, _|].
    destruct (decide (c = sep)); [by eexists _, _, _|].
    destruct (JsString.split sep b); by eexists _, _, _.
  - rewrite IH. destruct (decide (c = sep)); by eexists _, _, _.
Qed.

(** [pop] after [split] returns what follows the last separator. *)
Lemma last_split_app sep a b :
  last (JsString.split sep (a +:+ String sep b)) = last (JsString.split sep b).
Proof.
  induction a as [|c a IH]; simpl.
  - rewrite decide_True by done.
    destruct b as [|c b]; simpl; [done|].
    destruct (decide (c = sep)); [done|].
    by destruct (JsString.split sep b).
  - destruct (split_two sep a b) as (seg & seg' & segs & Heq).
    rewrite Heq in IH |- *. by destruct (decide (c = sep)).
Qed.

(** A source name with an extension: the extension is what follows its
    last dot. *)
Lemma extension_of_dotted stem ext :
  dotless ext = true → ext ≠ "" →
  extension_of (stem +:+ "." +:+ ext) = ext.
Proof.
  intros Hd Hne. unfold extension_of.
  change (stem +:+ "." +:+ ext) with (stem +:+ String "."%char ext).
  rewrite last_split_app, split_dotless by done. simpl.
  by rewrite decide_False.
Qed.

(** A source name without a dot: [pop] returns the whole name, which is
    truthy, so the fallback is not taken. *)
Lemma extension_of_dotless name :
  dotless name = true → name ≠ "" → extension_of name = name.
Proof.
  intros Hd Hne. unfold extension_of. rewrite split_dotless by done.
  simpl. by rewrite decide_False.
Qed.

(** The fallback is taken exactly for a name that is empty or ends in a dot. *)
Lemma extension_of_trailing_dot stem : extension_of (stem +:+ ".") = "png".
Proof.
  unfold extension_of.
  change (stem +:+ ".") with (stem +:+ String "."%char "").
  by rewrite last_split_app.
Qed.

Example extension_of_examples :
  extension_of "photo.jpg" = "jpg" ∧ extension_of "a.tar.gz" = "gz"
  ∧ extension_of "" = "png" ∧ extension_of "scan." = "png"
  ∧ extension_of "README" = "README".
Proof. done. Qed.

Context `{Browser}.

(** A document's artifact is named [outputFilename + ".pdf"]. *)
Lemma processFile_pdf_filename f w blob name :
  type f = Some pdf →
  (Batch.processFile f w).2 = Resolved (blob, name) →
  name = outputFilename f +:+ ".pdf".
Proof.
  unfold Batch.processFile. intros ->.
  unfold await, async_ret, settled.
  destruct (pdf_load _); [|done..].
  destruct (pdf_save _ _); [|done..].
  by intros [= _ <-].
Qed.

(** C3, at the inputs where the code departs from it.  For an image entry
    whose source file name is not empty and contains no dot, the file name
    the code emits is [outputFilename + "." + name], not
    [outputFilename + ".png"]: in the batch component that is the name of
    the artifact, in the image-only component the name of the download. *)
Theorem dotless_source_name_is_its_own_extension f w :
  dotless (file_name (file f)) = true → file_name (file f) ≠ "" →
  extension_of (file_name (file f)) = file_name (file f)
  ∧ (∀ blob name, type f ≠ Some pdf →
       (Batch.processFile f w).2 = Resolved (blob, name) →
       name = outputFilename f +:+ "." +:+ file_name (file f))
  ∧ ((ImageOnly.processAndDownloadImage f w).2 = Resolved tt →
       ∃ blob, downloads (ImageOnly.processAndDownloadImage f w).1
               = downloads w
                 ++ [(outputFilename f +:+ "." +:+ file_name (file f), RBlob blob)]).
Proof.
  intros Hd Hne.
  pose proof (extension_of_dotless _ Hd Hne) as Hext.
  split; [done|]. split.
  - intros blob name Hty. rewrite processFile_image by done.
    unfold image_artifact. rewrite Hext.
    destruct (render f); simpl; [|done]. by intros [= _ <-].
  - pose proof (processAndDownloadImage_cases f w) as Hc.
    unfold image_artifact in Hc. rewrite Hext in Hc.
    destruct (render f) as [blob|]; simpl in Hc.
    + destruct Hc as (w' & -> & Hdl & _). intros _. by exists blob.
    + destruct Hc as (w' & -> & _). done.
Qed.

End FileNames.

Lemma dotless_source_name_is_its_own_extension_witness :
  let f := image_entry "x" 0 (png_file "photo") "photo" 800 600 in
  extension_of "photo" = "photo"
  ∧ ∃ blob, downloads (@ImageOnly.processAndDownloadImage sample_browser f initial).1
            = [("photo.photo", RBlob blob)].
Proof.
  intros f.
  destruct (@dotless_source_name_is_its_own_extension sample_browser f initial)
    as (Hext & _ & Hdl); [reflexivity|discriminate|].
  split; [exact Hext|]. apply Hdl. reflexivity.
Defined.

(** ** Resizing and the ways image processing can end *)

Section Images.
Context `{Browser}.
Implicit Types (w : World) (f : FileState).

(** C10.  In both components the promise of the per-image operation is never
    rejected; when the image does not load, or loads but [toBlob] hands
    [null] to its callback, the promise is left unsettled. *)
Theorem image_processing_never_rejects f w :
  (∀ e, (ImageOnly.processAndDownloadImage f w).2 ≠ Rejected e)
  ∧ (∀ e, type f ≠ Some pdf → (Batch.processFile f w).2 ≠ Rejected e)
  ∧ (load_image (preview f) = None →
       (ImageOnly.processAndDownloadImage f w).2 = Pending
       ∧ (type f ≠ Some pdf → (Batch.processFile f w).2 = Pending))
  ∧ (∀ img, load_image (preview f) = Some img →
       toBlob (rasterize f img (canvas w)) (file_type (file f)) = None →
       (ImageOnly.processAndDownloadImage f w).2 = Pending
       ∧ (type f ≠ Some pdf → (Batch.processFile f w).2 = Pending)).
Proof.
  pose proof (processAndDownloadImage_cases f w) as Hseq.
  split; [|split; [|split]].
  - intros e. destruct (image_artifact f).
    + destruct Hseq as (w' & -> & _). done.
    + destruct Hseq as (w' & -> & _). done.
  - intros e Hty. rewrite processFile_image by done.
    by destruct (image_artifact f).
  - intros Hload. split.
    + unfold ImageOnly.processAndDownloadImage. by rewrite Hload.
    + intros Hty. rewrite processFile_image by done.
      unfold image_artifact, render. by rewrite Hload.
  - intros img Hload Hblob. split.
    + unfold ImageOnly.processAndDownloadImage. rewrite Hload. simpl.
      by rewrite Hblob.
    + intros Hty. rewrite processFile_image by done.
      unfold image_artifact, render. rewrite Hload. simpl.
      rewrite rasterize_fresh in Hblob |- *. by rewrite Hblob.
Qed.

(** C4 (amended).  For an image entry whose target width and height are
    positive and at most 2147483647 and whose image loads, the canvas is
    sized exactly to the target and the image is drawn once onto the
    rectangle from (0, 0) of exactly the target width and height, whatever
    its own size.  If the encoder delivers a blob for that bitmap, the blob
    produced (downloaded by the image-only component, returned as artifact
    by the batch component) is the encoding of that bitmap, of pixel size
    (target width, target height).  If the encoder delivers none, no bytes
    are produced: nothing is downloaded and the operation never settles. *)
Theorem resize_exact_dimensions f w (tw th : Z) (img : Image) :
  0 < tw <= 2147483647 → 0 < th <= 2147483647 →
  width f = Some tw → height f = Some th →
  load_image (preview f) = Some img →
  let target :=
    {| canvas_width := Some tw; canvas_height := Some th;
       canvas_drawn := [{| draw_image := img; draw_dx := 0; draw_dy := 0;
                           draw_dw := Some tw; draw_dh := Some th |}] |} in
  let blob := CanvasBlob (file_type (file f)) target in
  canvas (ImageOnly.processAndDownloadImage f w).1 = target
  ∧ (type f ≠ Some pdf → canvas (Batch.processFile f w).1 = target)
  ∧ (encodes target (file_type (file f)) = true →
       blob_dimensions blob = Some (Some tw, Some th)
       ∧ (ImageOnly.processAndDownloadImage f w).2 = Resolved tt
       ∧ (∃ name, downloads (ImageOnly.processAndDownloadImage f w).1
                  = downloads w ++ [(name, RBlob blob)])
       ∧ (type f ≠ Some pdf →
            ∃ name, (Batch.processFile f w).2 = Resolved (blob, name)))
  ∧ (encodes target (file_type (file f)) = false →
       (ImageOnly.processAndDownloadImage f w).2 = Pending
       ∧ downloads (ImageOnly.processAndDownloadImage f w).1 = downloads w
       ∧ (type f ≠ Some pdf → (Batch.processFile f w).2 = Pending)).
Proof.
  intros Htw Hth Hw Hh Himg target blob.
  assert (∀ c, rasterize f img c = target) as Hras.
  { intros c. rewrite rasterize_fresh, Hw, Hh.
    rewrite !canvas_size_in_range by lia. done. }
  assert (type f ≠ Some pdf →
          Batch.processFile f w
          = (set_canvas target w,
             if encodes target (file_type (file f))
             then Resolved (blob, outputFilename f +:+ "."
                                  +:+ extension_of (file_name (file f)))
             else Pending)) as Hbatch.
  { intros Hty. unfold Batch.processFile, toBlob.
    destruct (type f) as [[]|]; [|done|];
      rewrite Himg; simpl; rewrite !Hras;
      by destruct (encodes target (file_type (file f))). }
  unfold ImageOnly.processAndDownloadImage, toBlob.
  rewrite Himg. simpl. rewrite !Hras.
  destruct (encodes target (file_type (file f))) eqn:Henc; simpl.
  - split; [done|]. split; [intros Hty; by rewrite Hbatch|].
    split; [|done]. intros _.
    split; [done|]. split; [done|]. split; [by eexists|].
    intros Hty. rewrite Hbatch by done. by eexists.
  - split; [done|]. split; [intros Hty; by rewrite Hbatch|].
    split; [done|]. intros _.
    split; [done|]. split; [done|].
    intros Hty. by rewrite Hbatch.
Qed.

End Images.

Lemma resize_exact_dimensions_witness :
  let f := image_entry "x" 0 (png_file "photo.jpg") "photo" 800 600 in
  ∃ blob name,
    @blob_dimensions sample_browser blob = Some (Some 800, Some 600)
    ∧ downloads (@ImageOnly.processAndDownloadImage sample_browser f initial).1
      = downloads initial ++ [(name, RBlob blob)].
Proof.
  intros f.
  destruct (@resize_exact_dimensions sample_browser f initial 800 600
              {| naturalWidth := 1024; naturalHeight := 768;
                 image_pixels := "PNG" |})
    as (_ & _ & Hok & _); [lia|lia|reflexivity..|].
  destruct Hok as (Hdim & _ & [name Hdl] & _); [reflexivity|].
  eexists _, name. split; [exact Hdim|exact Hdl].
Defined.

(** C4 as stated fails in two ways.  When the image loads but the encoder
    delivers no blob, no bytes are produced: a 100000 x 100000 target
    exceeds what the encoder of the sample browser accepts.  And a target
    width above 2147483647 is not the width the canvas takes: assigned
    4294967306, the canvas is 10 wide, and the picture produced is 10 x 10. *)
Lemma resize_claim_counterexample :
  (let f := image_entry "x" 0 (png_file "big.png") "big" 100000 100000 in
   width f = Some 100000 ∧ height f = Some 100000
   ∧ is_Some (@load_image sample_browser (preview f))
   ∧ (@ImageOnly.processAndDownloadImage sample_browser f initial).2 = Pending
   ∧ downloads (@ImageOnly.processAndDownloadImage sample_browser f initial).1 = []
   ∧ (@Batch.processFile sample_browser f initial).2 = Pending)
  ∧ (let g := image_entry "y" 1 (png_file "wide.png") "wide" 4294967306 10 in
     width g = Some 4294967306 ∧ height g = Some 10
     ∧ is_Some (@load_image sample_browser (preview g))
     ∧ ∃ blob,
         (@Batch.processFile sample_browser g initial).2
           = Resolved (blob, "wide.png")
         ∧ downloads (@ImageOnly.processAndDownloadImage sample_browser g initial).1
           = [("wide.png", RBlob blob)]
         ∧ @blob_dimensions sample_browser blob = Some (Some 10, Some 10)
         ∧ @blob_dimensions sample_browser blob
           ≠ Some (Some 4294967306, Some 10)).
Proof.
  split.
  - repeat split; try reflexivity. by eexists.
  - split; [reflexivity|]. split; [reflexivity|]. split; [by eexists|].
    eexists. split; [reflexivity|]. split; [reflexivity|].
    split; [reflexivity|discriminate].
Qed.

(** ** Promise combinators *)

Section Promises.
Context {A : Type}.
Implicit Types (o : outcome A) (os : list (outcome A)).

Lemma promise_all_resolved os (l : list A) :
  Forall2 (λ o a, o = Resolved a) os l → promise_all os = Resolved l.
Proof.
  induction 1 as [|o a os l -> _ IH]; simpl; [done|]. by rewrite IH.
Qed.

Lemma promise_all_resolved_inv os (l : list A) :
  promise_all os = Resolved l → Forall2 (λ o a, o = Resolved a) os l.
Proof.
  revert l. induction os as [|o os IH]; simpl; intros l.
  - intros [= <-]. constructor.
  - destruct o as [a|e|]; destruct (promise_all os) as [l'|e'|]; try done.
    intros [= <-]. constructor; [done|by apply IH].
Qed.

(** One input that is not fulfilled keeps [Promise.all] from fulfilling. *)
Lemma promise_all_unfulfilled os o :
  o ∈ os → (∀ a, o ≠ Resolved a) → ∀ l, promise_all os ≠ Resolved l.
Proof.
  intros Hin Ho l Hall. apply promise_all_resolved_inv in Hall.
  apply list_elem_of_lookup in Hin as [n Hn].
  destruct (Forall2_lookup_l _ _ _ _ _ Hall Hn) as (a & _ & ->).
  by apply (Ho a).
Qed.

Lemma promise_all_rejected_inv os e :
  promise_all os = Rejected e → ∃ e', Rejected e' ∈ os.
Proof.
  induction os as [|o os IH]; simpl; [done|].
  destruct o as [a|e1|].
  - destruct (promise_all os) as [l|e2|]; try done.
    intros [= ->]. destruct IH as [e' He']; [done|]. exists e'. by right.
  - intros _. exists e1. by left.
  - destruct (promise_all os) as [l|e2|]; try done.
    intros [= ->]. destruct IH as [e' He']; [done|]. exists e'. by right.
Qed.

(** With no rejected input, one unsettled input leaves it unsettled. *)
Lemma promise_all_pending os :
  (∀ e, Rejected e ∉ os) → Pending ∈ os → promise_all os = Pending.
Proof.
  intros Hrej Hin.
  destruct (promise_all os) as [l|e|] eqn:Hall; [| |done].
  - by destruct (promise_all_unfulfilled os Pending Hin) with l.
  - destruct (promise_all_rejected_inv os e Hall) as [e' He'].
    by destruct (Hrej e').
Qed.

End Promises.

(** ** The image-only component: one entry after the other *)

Section Sequential.
Context `{Browser}.
Implicit Types (w : World) (f : FileState) (l : list FileState).

Lemma image_success_iff f w :
  (ImageOnly.processAndDownloadImage f w).2 = Resolved tt
  ↔ is_Some (image_artifact f).
Proof.
  pose proof (processAndDownloadImage_cases f w) as Hc.
  destruct (image_artifact f) as [a|].
  - destruct Hc as (w' & -> & _). split; [by eexists|done].
  - destruct Hc as (w' & -> & _). split; [done|]. by intros [a Ha].
Qed.

Lemma image_failure_iff f w :
  (ImageOnly.processAndDownloadImage f w).2 ≠ Resolved tt
  ↔ image_artifact f = None.
Proof.
  rewrite image_success_iff. split.
  - destruct (image_artifact f); [|done]. intros []. by eexists.
  - intros -> [a Ha]. done.
Qed.

Lemma for_of_app {A} (l1 l2 : list A) (g : A → Async unit) w :
  for_of (l1 ++ l2) g w = (let! _ := for_of l1 g in for_of l2 g) w.
Proof.
  revert w. induction l1 as [|x l1 IH]; intros w; [done|].
  simpl. unfold await in *.
  destruct (g x w) as [w1 [[]| |]]; [|done..]. apply IH.
Qed.

(** While every entry succeeds, the loop goes through the list and each
    entry adds its own download, in the order of the list. *)
Lemma for_of_all_succeed l : ∀ w,
  Forall (λ f, is_Some (image_artifact f)) l →
  ∃ w', for_of l ImageOnly.processAndDownloadImage w = (w', Resolved tt)
        ∧ downloads w' = downloads w ++ emitted l
        ∧ processing w' = processing w ∧ console w' = console w
        ∧ files w' = files w.
Proof.
  induction l as [|f l IH]; intros w Hall.
  - exists w. by rewrite app_nil_r.
  - apply Forall_cons in Hall as [[a Ha] Hall].
    pose proof (processAndDownloadImage_cases f w) as Hc.
    rewrite Ha in Hc. destruct Hc as (w1 & Hrun & Hdl & Hp & Hc & Hf & _).
    destruct (IH w1 Hall) as (w' & Hrest & Hdl' & Hp' & Hc' & Hf').
    exists w'. simpl. unfold await. rewrite Hrun, Hrest.
    unfold emitted. simpl. rewrite Ha. simpl.
    rewrite Hdl', Hdl, <- app_assoc. split; [done|]. split; [done|].
    split; [congruence|]. split; congruence.
Qed.

Lemma emitted_all_succeed l :
  Forall (λ f, is_Some (image_artifact f)) l →
  Forall2 (λ f d, ∃ a, image_artifact f = Some a ∧ d = (a.2, RBlob a.1))
          l (emitted l).
Proof.
  induction 1 as [|f l [a Ha] _ IH]; [constructor|].
  unfold emitted. simpl. rewrite Ha. simpl. constructor; [by exists a|done].
Qed.

(** An entry that fails suspends the loop; the busy flag keeps the value it
    had when the loop was entered. *)
Lemma for_of_suspended l x : ∀ w,
  x ∈ l → image_artifact x = None →
  ∃ w', for_of l ImageOnly.processAndDownloadImage w = (w', Pending)
        ∧ processing w' = processing w ∧ console w' = console w.
Proof.
  induction l as [|f l IH]; intros w Hin Hx; [by apply elem_of_nil in Hin|].
  pose proof (processAndDownloadImage_cases f w) as Hc.
  simpl. unfold await.
  destruct (image_artifact f) as [a|] eqn:Ha.
  - destruct Hc as (w1 & -> & _ & Hp & Hc & _).
    apply elem_of_cons in Hin as [->|Hin]; [congruence|].
    destruct (IH w1 Hin Hx) as (w' & -> & Hp' & Hc').
    exists w'. split; [done|]. split; congruence.
  - destruct Hc as (w1 & -> & _ & Hp & Hc & _). by exists w1.
Qed.

Lemma for_of_files l : ∀ w,
  files (for_of l ImageOnly.processAndDownloadImage w).1 = files w.
Proof.
  induction l as [|f l IH]; intros w; [done|].
  pose proof (processAndDownloadImage_cases f w) as Hc.
  simpl. unfold await.
  destruct (image_artifact f).
  - destruct Hc as (w1 & -> & _ & _ & _ & Hfs & _). by rewrite IH.
  - by destruct Hc as (w1 & -> & _ & _ & _ & Hfs & _).
Qed.

(** A run of the image-only component leaves the store as it is. *)
Lemma handleProcessAndDownload_files w :
  files (ImageOnly.handleProcessAndDownload w).1 = files w.
Proof.
  unfold ImageOnly.handleProcessAndDownload. case_bool_decide; [done|].
  pose proof (for_of_files (files w) (setProcessing true w)) as Hfs.
  unfold try_catch_finally.
  by destruct (for_of _ _ _) as [w1 [[]|e|]].
Qed.

(** C5.  In the image-only component, take any entry [x] of the store such
    that every entry before it succeeds.  When [x] is started, the loop has
    gone through exactly the entries before it; each of them has been
    downloaded, one download per entry, in store order; what remains of the
    run is [x] followed by the entries after it.  If [x] fails, the run ends
    there, unsettled: the final world is the one [x]'s attempt left, with
    the downloads of the entries before [x] and nothing of [x] or of any
    entry after it. *)
Theorem sequential_emit_in_store_order w pre x post :
  files w = pre ++ x :: post →
  Forall (λ f, (ImageOnly.processAndDownloadImage f w).2 = Resolved tt) pre →
  ∃ wk ds,
    for_of pre ImageOnly.processAndDownloadImage (setProcessing true w)
      = (wk, Resolved tt)
    ∧ downloads wk = downloads w ++ ds
    ∧ Forall2 (λ f d, ∃ a, image_artifact f = Some a ∧ d = (a.2, RBlob a.1))
              pre ds
    ∧ for_of (files w) ImageOnly.processAndDownloadImage (setProcessing true w)
      = (let! _ := ImageOnly.processAndDownloadImage x in
         for_of post ImageOnly.processAndDownloadImage) wk
    ∧ ((ImageOnly.processAndDownloadImage x w).2 ≠ Resolved tt →
         ImageOnly.handleProcessAndDownload w
           = ((ImageOnly.processAndDownloadImage x wk).1, Pending)
         ∧ downloads (ImageOnly.handleProcessAndDownload w).1
           = downloads w ++ ds).
Proof.
  intros Hfiles Hpre.
  assert (Forall (λ f, is_Some (image_artifact f)) pre) as Hok.
  { eapply Forall_impl; [exact Hpre|]. intros f. by rewrite image_success_iff. }
  destruct (for_of_all_succeed pre (setProcessing true w) Hok)
    as (wk & Hrun & Hdl & _).
  exists wk, (emitted pre).
  split; [done|]. split; [done|]. split; [by apply emitted_all_succeed|].
  assert (for_of (files w) ImageOnly.processAndDownloadImage (setProcessing true w)
          = (let! _ := ImageOnly.processAndDownloadImage x in
             for_of post ImageOnly.processAndDownloadImage) wk) as Hrest.
  { rewrite Hfiles, for_of_app. unfold await at 1. by rewrite Hrun. }
  split; [done|].
  intros Hfail%image_failure_iff.
  pose proof (processAndDownloadImage_cases x wk) as Hc.
  rewrite Hfail in Hc. destruct Hc as (w' & Hx & Hdl' & _).
  assert (ImageOnly.handleProcessAndDownload w = (w', Pending)) as Hall.
  { unfold ImageOnly.handleProcessAndDownload.
    rewrite bool_decide_eq_false_2.
    2:{ rewrite Hfiles, length_app. simpl. lia. }
    unfold try_catch_finally. rewrite Hrest. unfold await. by rewrite Hx. }
  rewrite Hall, Hx. simpl. split; [done|]. by rewrite Hdl', Hdl.
Qed.

End Sequential.

Lemma sequential_emit_in_store_order_witness :
  let a := image_entry "x" 0 (png_file "photo.jpg") "photo" 800 600 in
  let b := image_entry "y" 1 (broken_file "b.png") "b" 800 600 in
  let c := image_entry "z" 2 (png_file "c.png") "c" 800 600 in
  ∃ blob,
    downloads (@ImageOnly.handleProcessAndDownload sample_browser
                 (with_files [a; b; c])).1
    = [("photo.jpg", RBlob blob)]
    ∧ (@ImageOnly.handleProcessAndDownload sample_browser
         (with_files [a; b; c])).2 = Pending.
Proof.
  intros a b c.
  destruct (@sequential_emit_in_store_order sample_browser
              (with_files [a; b; c]) [a] b [c])
    as (wk & ds & _ & _ & Hds & _ & Hfail).
  - reflexivity.
  - repeat constructor.
  - destruct Hfail as [Hrun Hdl]; [discriminate|].
    apply Forall2_cons_inv_l in Hds as (d & ds' & (art & Hart & ->) & Hnil & ->).
    apply Forall2_nil_inv_l in Hnil as ->.
    injection Hart as <-.
    eexists. split; [exact Hdl|]. by rewrite Hrun.
Defined.

(** ** The archive *)

Section Archive.
Implicit Types (zip : gmap string Blob) (arts : list (Blob * string)).

Lemma zip_all_app arts1 arts2 zip :
  Batch.zip_all (arts1 ++ arts2) zip = Batch.zip_all arts2 (Batch.zip_all arts1 zip).
Proof. apply foldl_app. Qed.

Lemma zip_all_cons b n arts zip :
  Batch.zip_all ((b, n) :: arts) zip = Batch.zip_all arts (Batch.zip_file n b zip).
Proof. done. Qed.

Lemma zip_all_lookup_other arts : ∀ zip name,
  name ∉ arts.*2 → Batch.zip_all arts zip !! name = zip !! name.
Proof.
  induction arts as [|[b n] arts IH]; intros zip name Hn; [done|].
  rewrite fmap_cons in Hn. apply not_elem_of_cons in Hn as [Hne Hn].
  simpl in Hne. rewrite zip_all_cons, IH by done.
  unfold Batch.zip_file. by rewrite lookup_insert_ne.
Qed.

(** Under a name, the archive holds the blob added last. *)
Lemma zip_all_last_wins arts1 b name arts2 zip :
  name ∉ arts2.*2 →
  Batch.zip_all (arts1 ++ (b, name) :: arts2) zip !! name = Some b.
Proof.
  intros Hn. rewrite zip_all_app, zip_all_cons.
  rewrite zip_all_lookup_other by done.
  unfold Batch.zip_file. apply lookup_insert_eq.
Qed.

Lemma filter_none {A} (P : A → Prop) `{∀ x, Decision (P x)} (l : list A) :
  Forall (λ x, ¬ P x) l → filter P l = [].
Proof.
  induction 1 as [|x l Hx _ IH]; [done|].
  by rewrite filter_cons_False.
Qed.

(** A name-indexed map lists a name at most once. *)
Lemma archive_single_entry zip name b :
  zip !! name = Some b →
  length (filter (λ e, e.1 = name) (map_to_list zip)) = 1%nat.
Proof.
  intros Hl.
  rewrite <- (map_to_list_delete zip name b Hl).
  rewrite filter_cons_True by done. simpl. f_equal.
  rewrite filter_none; [done|].
  apply Forall_forall. intros [k v] Hin%elem_of_map_to_list Hk.
  simpl in Hk. subst k. by rewrite lookup_delete_eq in Hin.
Qed.

End Archive.

(** ** The batch component: all entries, then one archive *)

Section BatchRun.
Context `{Browser}.
Implicit Types (w : World) (f : FileState) (l : list FileState).

(** Issuing the processing of every entry touches only the canvas, and each
    promise settles as it would have from the starting world. *)
Lemma map_async_processFile l : ∀ w,
  (map_async Batch.processFile l w).2 = (λ f, (Batch.processFile f w).2) <$> l
  ∧ downloads (map_async Batch.processFile l w).1 = downloads w
  ∧ processing (map_async Batch.processFile l w).1 = processing w
  ∧ console (map_async Batch.processFile l w).1 = console w
  ∧ object_urls (map_async Batch.processFile l w).1 = object_urls w
  ∧ revoked (map_async Batch.processFile l w).1 = revoked w
  ∧ files (map_async Batch.processFile l w).1 = files w.
Proof.
  induction l as [|f l IH]; intros w; [done|].
  cbn [map_async].
  destruct (processFile_frame f w) as (Hd & Hp & Hc & Hfs & Hu & Hr).
  pose proof (processFile_outcome_indep f w) as Hindep.
  destruct (Batch.processFile f w) as [w1 o] eqn:Hf. cbn [fst snd] in *.
  destruct (IH w1) as (Ho' & Hd' & Hp' & Hc' & Hu' & Hr' & Hfs').
  destruct (map_async Batch.processFile l w1) as [w2 os]. cbn [fst snd] in *.
  rewrite fmap_cons, Hf. cbn [snd]. split.
  - rewrite Ho'. f_equal. apply list_fmap_ext. intros _ g _.
    apply processFile_outcome_indep.
  - repeat split; congruence.
Qed.

(** The [try] block, by the way [Promise.all] settles. *)
Lemma package_cases l w :
  match promise_all ((λ f, (Batch.processFile f w).2) <$> l) with
  | Resolved arts =>
      let zip := Batch.zip_all arts ∅ in
      (Batch.package l w).2 = Resolved tt
      ∧ downloads (Batch.package l w).1
        = downloads w ++ [("processed_files.zip", RZip zip)]
      ∧ object_urls (Batch.package l w).1 = S (object_urls w)
      ∧ revoked (Batch.package l w).1
        = revoked w ++ [{| url_serial := object_urls w; url_target := RZip zip |}]
  | Rejected e =>
      (Batch.package l w).2 = Rejected e
      ∧ downloads (Batch.package l w).1 = downloads w
      ∧ object_urls (Batch.package l w).1 = object_urls w
      ∧ revoked (Batch.package l w).1 = revoked w
  | Pending =>
      (Batch.package l w).2 = Pending
      ∧ downloads (Batch.package l w).1 = downloads w
      ∧ object_urls (Batch.package l w).1 = object_urls w
      ∧ revoked (Batch.package l w).1 = revoked w
  end
  ∧ processing (Batch.package l w).1 = processing w
  ∧ console (Batch.package l w).1 = console w
  ∧ files (Batch.package l w).1 = files w.
Proof.
  destruct (map_async_processFile l w) as (Ho & Hd & Hp & Hc & Hu & Hr & Hfs).
  unfold Batch.package, await, async_ret.
  destruct (map_async Batch.processFile l w) as [w1 os]. cbn [fst snd] in *.
  rewrite <- Ho.
  destruct (promise_all os) as [arts|e|]; simpl;
    rewrite ?Hd, ?Hu, ?Hr; done.
Qed.

(** A run of the batch component leaves the store as it is. *)
Lemma processAndDownload_files w :
  files (Batch.processAndDownload w).1 = files w.
Proof.
  unfold Batch.processAndDownload. case_bool_decide; [done|].
  pose proof (package_cases (files w) (setProcessing true w)) as (_ & _ & _ & Hfs).
  unfold try_catch_finally.
  by destruct (Batch.package (files w) (setProcessing true w)) as [w1 [[]|e|]].
Qed.

(** C1.  In the batch component, when the store holds an entry whose
    processing does not succeed (its promise is rejected or never settles),
    the [try] block of the run does not complete, no download is triggered
    and no object URL is created for an archive: either the run is left
    unsettled with the busy flag set, or the failure is caught, logged once
    to the console and the busy flag is cleared. *)
Theorem batch_failure_no_archive w f :
  f ∈ files w →
  (∀ a, (Batch.processFile f w).2 ≠ Resolved a) →
  (∀ u, (Batch.package (files w) (setProcessing true w)).2 ≠ Resolved u)
  ∧ downloads (Batch.processAndDownload w).1 = downloads w
  ∧ object_urls (Batch.processAndDownload w).1 = object_urls w
  ∧ (((Batch.processAndDownload w).2 = Pending
      ∧ processing (Batch.processAndDownload w).1 = true
      ∧ console (Batch.processAndDownload w).1 = console w)
     ∨ (∃ e, (Batch.processAndDownload w).2 = Resolved tt
             ∧ processing (Batch.processAndDownload w).1 = false
             ∧ console (Batch.processAndDownload w).1
               = console w ++ [("Error processing files:", e)])).
Proof.
  intros Hin Hfail.
  assert (∀ arts, promise_all ((λ g, (Batch.processFile g (setProcessing true w)).2)
                               <$> files w) ≠ Resolved arts) as Hall.
  { apply (promise_all_unfulfilled _ ((Batch.processFile f (setProcessing true w)).2)).
    - apply (list_elem_of_fmap_2 (λ g, (Batch.processFile g (setProcessing true w)).2)).
      exact Hin.
    - intros a. rewrite (processFile_outcome_indep f _ w). apply Hfail. }
  pose proof (package_cases (files w) (setProcessing true w)) as (Hpk & Hp & Hc & _).
  unfold Batch.processAndDownload.
  rewrite bool_decide_eq_false_2.
  2:{ intros Hlen. apply length_zero_iff_nil in Hlen. rewrite Hlen in Hin.
      by apply elem_of_nil in Hin. }
  unfold try_catch_finally.
  destruct (Batch.package (files w) (setProcessing true w)) as [w1 o].
  cbn [fst snd] in *.
  destruct (promise_all _) as [arts|e|].
  - by destruct (Hall arts).
  - destruct Hpk as (-> & Hd & Hu & _). simpl.
    split; [done|]. split; [done|]. split; [done|].
    right. exists e. by rewrite Hc.
  - destruct Hpk as (-> & Hd & Hu & _). simpl.
    split; [done|]. split; [done|]. split; [done|].
    left. by rewrite Hp, Hc.
Qed.

(** C9.  In the batch component, when every entry is processed successfully
    and two of the artifacts carry the same file name, the run completes
    without any console error and downloads one archive; under that name
    the archive lists exactly one entry, holding the blob of the artifact
    that comes last in store order among those with the name. *)
Theorem archive_name_collision w arts before b1 between b2 after name :
  Forall2 (λ f a, (Batch.processFile f w).2 = Resolved a) (files w) arts →
  arts = before ++ (b1, name) :: between ++ (b2, name) :: after →
  name ∉ after.*2 →
  let zip := Batch.zip_all arts ∅ in
  (Batch.processAndDownload w).2 = Resolved tt
  ∧ downloads (Batch.processAndDownload w).1
    = downloads w ++ [("processed_files.zip", RZip zip)]
  ∧ console (Batch.processAndDownload w).1 = console w
  ∧ processing (Batch.processAndDownload w).1 = false
  ∧ zip !! name = Some b2
  ∧ length (filter (λ e, e.1 = name) (map_to_list zip)) = 1%nat.
Proof.
  intros Hres Harts Hlast zip.
  assert (zip !! name = Some b2) as Hlookup.
  { subst zip.
    assert (arts = (before ++ (b1, name) :: between) ++ (b2, name) :: after)
      as -> by (by rewrite <- app_assoc).
    by apply zip_all_last_wins. }
  assert (promise_all ((λ g, (Batch.processFile g (setProcessing true w)).2)
                       <$> files w) = Resolved arts) as Hall.
  { apply promise_all_resolved. apply Forall2_fmap_l.
    eapply Forall2_impl; [exact Hres|]. intros g a Hg. simpl.
    rewrite <- Hg. apply processFile_outcome_indep. }
  pose proof (package_cases (files w) (setProcessing true w)) as (Hpk & Hp & Hc & _).
  rewrite Hall in Hpk. destruct Hpk as (Ho & Hd & _).
  unfold Batch.processAndDownload.
  rewrite bool_decide_eq_false_2.
  2:{ intros Hlen. apply length_zero_iff_nil in Hlen. rewrite Hlen in Hres.
      apply Forall2_nil_inv_l in Hres. rewrite Hres in Harts.
      by destruct before. }
  unfold try_catch_finally.
  destruct (Batch.package (files w) (setProcessing true w)) as [w1 o].
  cbn [fst snd] in *. subst o. simpl.
  split; [done|]. split; [done|]. split; [done|]. split; [done|].
  split; [done|]. by eapply archive_single_entry.
Qed.

End BatchRun.

Lemma batch_failure_no_archive_witness :
  let a := image_entry "x" 0 (png_file "photo.jpg") "photo" 800 600 in
  let b := pdf_entry "y" (broken_file "b.pdf") "b" in
  downloads (@Batch.processAndDownload sample_browser (with_files [a; b])).1 = []
  ∧ object_urls (@Batch.processAndDownload sample_browser (with_files [a; b])).1 = O.
Proof.
  intros a b.
  destruct (@batch_failure_no_archive sample_browser (with_files [a; b]) b)
    as (_ & Hd & Hu & _).
  - right. left.
  - intros art. vm_compute. discriminate.
  - split; [exact Hd|exact Hu].
Defined.

Lemma archive_name_collision_witness :
  let a := image_entry "x" 0 (png_file "x.png") "a" 800 600 in
  let b := image_entry "y" 1 (png_file "y.png") "a" 640 480 in
  let zip := Batch.zip_all [(sample_blob 800 600, "a.png");
                            (sample_blob 640 480, "a.png")] ∅ in
  downloads (@Batch.processAndDownload sample_browser (with_files [a; b])).1
    = [("processed_files.zip", RZip zip)]
  ∧ zip !! "a.png" = Some (sample_blob 640 480)
  ∧ length (filter (λ e, e.1 = "a.png") (map_to_list zip)) = 1%nat.
Proof.
  intros a b zip.
  destruct (@archive_name_collision sample_browser (with_files [a; b])
              [(sample_blob 800 600, "a.png"); (sample_blob 640 480, "a.png")]
              [] (sample_blob 800 600) [] (sample_blob 640 480) [] "a.png")
    as (_ & Hd & _ & _ & Hl & Hn).
  - repeat constructor.
  - reflexivity.
  - apply not_elem_of_nil.
  - split; [exact Hd|]. split; [exact Hl|exact Hn].
Defined.

(** ** The busy flag *)

Section BusyFlag.
Context `{Browser}.
Implicit Types (w : World) (f : FileState).

(** Whenever a run with a non-empty store settles, the flag is cleared. *)
Lemma busy_flag_cleared_when_settled w :
  files w ≠ [] →
  ((ImageOnly.handleProcessAndDownload w).2 ≠ Pending →
     processing (ImageOnly.handleProcessAndDownload w).1 = false)
  ∧ ((Batch.processAndDownload w).2 ≠ Pending →
       processing (Batch.processAndDownload w).1 = false).
Proof.
  intros Hne.
  unfold ImageOnly.handleProcessAndDownload, Batch.processAndDownload.
  rewrite bool_decide_eq_false_2 by (by rewrite length_zero_iff_nil).
  unfold try_catch_finally. split.
  - by destruct (for_of _ _ _) as [w1 [[]| |]].
  - by destruct (Batch.package _ _) as [w1 [[]| |]].
Qed.

(** C2, at the inputs where the code departs from it.  With an image entry
    in the store whose promise is never settled (the image does not load,
    or the encoder delivers no blob), the run of the image-only component
    is suspended with the busy flag still set and nothing logged; so is the
    run of the batch component unless another entry's promise is rejected. *)
Theorem busy_flag_stuck_after_image_failure w x :
  x ∈ files w →
  ((ImageOnly.processAndDownloadImage x w).2 ≠ Resolved tt →
     (ImageOnly.handleProcessAndDownload w).2 = Pending
     ∧ processing (ImageOnly.handleProcessAndDownload w).1 = true
     ∧ console (ImageOnly.handleProcessAndDownload w).1 = console w)
  ∧ ((Batch.processFile x w).2 = Pending →
     (∀ f e, f ∈ files w → (Batch.processFile f w).2 ≠ Rejected e) →
     (Batch.processAndDownload w).2 = Pending
     ∧ processing (Batch.processAndDownload w).1 = true
     ∧ console (Batch.processAndDownload w).1 = console w).
Proof.
  intros Hin.
  assert (bool_decide (length (files w) = 0%nat) = false) as Hlen.
  { apply bool_decide_eq_false_2. intros Hl%length_zero_iff_nil.
    rewrite Hl in Hin. by apply elem_of_nil in Hin. }
  split.
  - intros Hfail%image_failure_iff.
    destruct (for_of_suspended (files w) x (setProcessing true w) Hin Hfail)
      as (w' & Hrun & Hp & Hc).
    unfold ImageOnly.handleProcessAndDownload, try_catch_finally.
    by rewrite Hlen, Hrun.
  - intros Hx Hrej.
    assert (promise_all ((λ g, (Batch.processFile g (setProcessing true w)).2)
                         <$> files w) = Pending) as Hall.
    { apply promise_all_pending.
      - intros e (g & Hg & Hgin)%list_elem_of_fmap.
        rewrite (processFile_outcome_indep g _ w) in Hg.
        by destruct (Hrej g e Hgin).
      - rewrite <- Hx, (processFile_outcome_indep x w (setProcessing true w)).
        by apply (list_elem_of_fmap_2
                    (λ g, (Batch.processFile g (setProcessing true w)).2)). }
    pose proof (package_cases (files w) (setProcessing true w)) as (Hpk & Hp & Hc & _).
    rewrite Hall in Hpk. destruct Hpk as (Ho & _).
    unfold Batch.processAndDownload, try_catch_finally. rewrite Hlen.
    destruct (Batch.package (files w) (setProcessing true w)) as [w1 o].
    cbn [fst snd] in *. by subst o.
Qed.

End BusyFlag.

Lemma busy_flag_stuck_after_image_failure_witness :
  let a := image_entry "x" 0 (png_file "photo.jpg") "photo" 800 600 in
  let b := image_entry "y" 1 (broken_file "b.png") "b" 800 600 in
  processing (@ImageOnly.handleProcessAndDownload sample_browser
                (with_files [a; b])).1 = true
  ∧ processing (@Batch.processAndDownload sample_browser
                  (with_files [a; b])).1 = true.
Proof.
  intros a b.
  destruct (@busy_flag_stuck_after_image_failure sample_browser
              (with_files [a; b]) b) as [Hseq Hbatch].
  - right. left.
  - destruct Hseq as (_ & Hp & _); [discriminate|].
    destruct Hbatch as (_ & Hp' & _).
    + reflexivity.
    + intros f e Hf. apply list_elem_of_In in Hf.
      destruct Hf as [<-|[<-|[]]]; discriminate.
    + split; [exact Hp|exact Hp'].
Defined.

(** ** Runs on an empty store, and the specification's example *)

(** With no entry in the store a run does nothing at all. *)
Lemma empty_store_run_is_noop `{Browser} (w : World) :
  files w = [] →
  ImageOnly.handleProcessAndDownload w = (w, Resolved tt)
  ∧ Batch.processAndDownload w = (w, Resolved tt).
Proof.
  intros Hw. unfold ImageOnly.handleProcessAndDownload, Batch.processAndDownload.
  by rewrite Hw.
Qed.

(** A file named ["photo.jpg"] taken in with the default settings is stored
    under the output name ["photo"] with target size 800 x 600; processing
    it downloads ["photo.jpg"], a picture of 800 x 600 pixels, and clears
    the busy flag. *)
Example photo_jpg_default_settings :
  let w := @ImageOnly.handleFileChange sample_browser [png_file "photo.jpg"] initial in
  (outputFilename <$> files w) = ["photo"]
  ∧ (width <$> files w) = [Some 800] ∧ (height <$> files w) = [Some 600]
  ∧ downloads (@ImageOnly.handleProcessAndDownload sample_browser w).1
    = [("photo.jpg", RBlob (sample_blob 800 600))]
  ∧ @blob_dimensions sample_browser (sample_blob 800 600)
    = Some (Some 800, Some 600)
  ∧ processing (@ImageOnly.handleProcessAndDownload sample_browser w).1 = false.
Proof. repeat split. Qed.

(** ** Uniqueness of ids *)

Section UniqueIds.
Context `{Browser}.

(** C8 (amended).  From a store with pairwise distinct ids, [removeFile],
    [updateFileSettings] and a run of either component lead to a store with
    pairwise distinct ids (a run does not change the store).  Intake
    takes each id from [Math.random] without comparing it with any other id:
    in either component the store after intake has pairwise distinct ids
    exactly when the ids drawn are distinct from one another and from every
    id already in the store. *)
Theorem ids_unique_unless_draws_collide (w : World) :
  NoDup (id <$> files w) →
  (∀ i, NoDup (id <$> files (removeFile i w)))
  ∧ (∀ i u, NoDup (id <$> files (updateFileSettings i u w)))
  ∧ NoDup (id <$> files (Batch.processAndDownload w).1)
  ∧ NoDup (id <$> files (ImageOnly.handleProcessAndDownload w).1)
  ∧ (∀ sel,
       let drawn := drawn_ids (random_calls w) (length sel) in
       (NoDup (id <$> files (Batch.handleFileChange sel w))
        ↔ NoDup drawn ∧ ∀ i, i ∈ drawn → i ∉ id <$> files w)
       ∧ (NoDup (id <$> files (ImageOnly.handleFileChange sel w))
          ↔ NoDup drawn ∧ ∀ i, i ∈ drawn → i ∉ id <$> files w)).
Proof.
  intros Hnd.
  split; [|split; [|split; [by rewrite processAndDownload_files|
                            split; [by rewrite handleProcessAndDownload_files|]]]].
  - intros i.
    assert (files (removeFile i w) = filter_out_id i (files w)) as ->.
    { unfold removeFile. by destruct (find_by_id i (files w) ≫= preview). }
    eapply sublist_NoDup; [exact Hnd|].
    apply fmap_sublist, filter_out_id_sublist.
  - intros i u. unfold updateFileSettings. simpl. by rewrite update_ids.
  - intros sel drawn. subst drawn.
    rewrite batch_handleFileChange_ids, image_handleFileChange_ids.
    split; by apply NoDup_append_fresh.
Qed.

End UniqueIds.

Lemma ids_unique_unless_draws_collide_witness :
  let w0 := removeFile "" (@ImageOnly.handleFileChange sample_browser
                             [png_file "a.png"; png_file "b.png"] initial) in
  let w1 := @ImageOnly.handleFileChange sample_browser [png_file "c.png"] w0 in
  let w2 := @ImageOnly.handleFileChange sample_browser [png_file "d.png"] w1 in
  let u := {| upd_outputFilename := Some "holiday"; upd_width := Some 640;
              upd_height := None |} in
  (id <$> files w1) = ["82mvyr"]
  ∧ (id <$> files w2) = ["82mvyr"; "d9q1ab"]
  ∧ NoDup (id <$> files w1)
  ∧ NoDup (id <$> files w2)
  ∧ NoDup (id <$> files (@Batch.handleFileChange sample_browser
                           [pdf_file "e.pdf"] w1))
  ∧ NoDup (id <$> files (removeFile "82mvyr" w2))
  ∧ NoDup (id <$> files (updateFileSettings "d9q1ab" u w2))
  ∧ NoDup (id <$> files (@ImageOnly.handleProcessAndDownload sample_browser w2).1).
Proof.
  intros w0 w1 w2 u.
  assert (NoDup (id <$> files w1)) as Hnd1.
  { apply (bool_decide_unpack _). vm_compute. exact I. }
  destruct (@ids_unique_unless_draws_collide sample_browser w1 Hnd1)
    as (_ & _ & _ & _ & Hin).
  assert (NoDup (@drawn_ids sample_browser (random_calls w1) 1)
          ∧ ∀ i, i ∈ @drawn_ids sample_browser (random_calls w1) 1
                 → i ∉ id <$> files w1) as Hfresh.
  { split.
    - apply (bool_decide_unpack _). vm_compute. exact I.
    - apply Forall_forall. apply (bool_decide_unpack _). vm_compute. exact I. }
  assert (NoDup (id <$> files w2)) as Hnd2.
  { destruct (Hin [png_file "d.png"]) as [_ [_ Himage]]. by apply Himage. }
  assert (NoDup (id <$> files (@Batch.handleFileChange sample_browser
                                 [pdf_file "e.pdf"] w1))) as Hbatch.
  { destruct (Hin [pdf_file "e.pdf"]) as [[_ Hb] _]. by apply Hb. }
  destruct (@ids_unique_unless_draws_collide sample_browser w2 Hnd2)
    as (Hrm & Hupd & _ & Hrun & _).
  split; [reflexivity|]. split; [reflexivity|].
  split; [exact Hnd1|]. split; [exact Hnd2|]. split; [exact Hbatch|].
  split; [exact (Hrm "82mvyr")|]. split; [exact (Hupd "d9q1ab" u)|exact Hrun].
Defined.

(** C8 as stated fails: the draws 0.5 and 0.25 are rendered ["0.i"] and
    ["0.9"] in base 36, both shorter than seven characters, so two files
    taken in at once both receive the empty id. *)
Lemma intake_id_collision_counterexample :
  (id <$> files (@ImageOnly.handleFileChange sample_browser
                   [png_file "a.png"; png_file "b.png"] initial)) = [""; ""]
  ∧ (id <$> files (@Batch.handleFileChange sample_browser
                     [png_file "a.png"; pdf_file "b.pdf"] initial)) = [""; ""]
  ∧ ¬ NoDup (id <$> files (@ImageOnly.handleFileChange sample_browser
                             [png_file "a.png"; png_file "b.png"] initial))
  ∧ ¬ NoDup (id <$> files (@Batch.handleFileChange sample_browser
                             [png_file "a.png"; pdf_file "b.pdf"] initial)).
Proof.
  repeat split; try reflexivity.
  - apply (bool_decide_unpack _). vm_compute. exact I.
  - apply (bool_decide_unpack _). vm_compute. exact I.
Qed.

(** * Further properties of the code *)

(** ** Intake *)

Section IntakeFrame.
Context `{Browser}.

Lemma image_newFiles_spec sel : ∀ w,
  (file <$> (ImageOnly.newFiles sel w).1) = sel
  ∧ Forall (λ e, outputFilename e = JsString.strip_extension (file_name (file e))
                 ∧ type e = None ∧ width e = Some 800 ∧ height e = Some 600
                 ∧ ∃ h, preview e = Some h
                        ∧ url_target h = RBlob (FileBlob (file e)))
           (ImageOnly.newFiles sel w).1
  ∧ (url_serial <$> omap preview (ImageOnly.newFiles sel w).1)
    = seq (object_urls w) (length sel)
  ∧ object_urls (ImageOnly.newFiles sel w).2 = (object_urls w + length sel)%nat
  ∧ effects_unchanged w (ImageOnly.newFiles sel w).2.
Proof.
  induction sel as [|f sel IH]; intros w.
  - simpl. rewrite Nat.add_0_r. by repeat split.
  - cbn [ImageOnly.newFiles]. unfold ImageOnly.newFile, random_id.
    cbn [createObjectURL].
    match goal with
    | |- context [ImageOnly.newFiles sel ?w1] =>
        destruct (IH w1) as (Hf & Hall & Hser & Hurls & Heff);
        destruct (ImageOnly.newFiles sel w1) as [es w2]
    end.
    cbn [fst snd] in *. rewrite fmap_cons, Hf. cbn [file].
    split; [done|]. split.
    { constructor; [|done]. cbn. repeat split; try done. by eexists. }
    split.
    { cbn [omap list_omap preview]. rewrite fmap_cons. cbn [url_serial length seq].
      f_equal. exact Hser. }
    split; [cbn in Hurls |- *; lia|].
    destruct Heff as (? & ? & ? & ? & ?). by repeat split.
Qed.

Lemma batch_newFiles_spec sel : ∀ w,
  (file <$> (Batch.newFiles sel w).1) = sel
  ∧ Forall (λ e, outputFilename e = JsString.strip_extension (file_name (file e))
                 ∧ if declared_image (file e)
                   then type e = Some image
                        ∧ width e = Some 800 ∧ height e = Some 600
                        ∧ ∃ h, preview e = Some h
                               ∧ url_target h = RBlob (FileBlob (file e))
                   else type e = Some pdf ∧ preview e = None
                        ∧ width e = None ∧ height e = None)
           (Batch.newFiles sel w).1
  ∧ (url_serial <$> omap preview (Batch.newFiles sel w).1)
    = seq (object_urls w) (length (filter (λ f, declared_image f) sel))
  ∧ object_urls (Batch.newFiles sel w).2
    = (object_urls w + length (filter (λ f, declared_image f) sel))%nat
  ∧ effects_unchanged w (Batch.newFiles sel w).2.
Proof.
  induction sel as [|f sel IH]; intros w.
  - simpl. rewrite Nat.add_0_r. by repeat split.
  - cbn [Batch.newFiles]. unfold Batch.newFile, random_id.
    destruct (JsString.startsWith "image/" (file_type f)) eqn:Himg;
      cbn [createObjectURL];
      match goal with
      | |- context [Batch.newFiles sel ?w1] =>
          destruct (IH w1) as (Hf & Hall & Hser & Hurls & Heff);
          destruct (Batch.newFiles sel w1) as [es w2]
      end;
      cbn [fst snd] in *; rewrite fmap_cons, Hf; cbn [file];
      (split; [done|]); (split; [|split; [|split]]).
    + constructor; [|done]. cbn. unfold declared_image. cbn. rewrite Himg.
      repeat split; try done. by eexists.
    + rewrite filter_cons_True by (cbn; unfold declared_image; by rewrite Himg).
      cbn [omap list_omap preview]. rewrite fmap_cons.
      cbn [url_serial length seq]. f_equal. exact Hser.
    + rewrite filter_cons_True by (cbn; unfold declared_image; by rewrite Himg).
      cbn in Hurls |- *. lia.
    + destruct Heff as (? & ? & ? & ? & ?). by repeat split.
    + constructor; [|done]. cbn. unfold declared_image. cbn. by rewrite Himg.
    + rewrite filter_cons_False by (cbn; unfold declared_image; rewrite Himg; tauto).
      exact Hser.
    + rewrite filter_cons_False by (cbn; unfold declared_image; rewrite Himg; tauto).
      exact Hurls.
    + destruct Heff as (? & ? & ? & ? & ?). by repeat split.
Qed.

(** X1.  Intake in the image-only component appends one entry per selected
    file, in selection order, after the entries already stored, which stay
    as they are.  Whatever its MIME type, each new entry gets the file name
    without its extension as output name, the size 800 x 600 and a preview
    URL created for the file; the URLs are the next ones in creation order.
    Nothing is revoked, downloaded or logged, and an empty selection changes
    nothing. *)
Theorem image_intake_appends (w : World) (sel : list File) :
  ImageOnly.handleFileChange [] w = w
  ∧ ∃ new,
      files (ImageOnly.handleFileChange sel w) = files w ++ new
      ∧ (file <$> new) = sel
      ∧ Forall (λ e, outputFilename e = JsString.strip_extension (file_name (file e))
                     ∧ type e = None ∧ width e = Some 800 ∧ height e = Some 600
                     ∧ ∃ h, preview e = Some h
                            ∧ url_target h = RBlob (FileBlob (file e))) new
      ∧ (url_serial <$> omap preview new) = seq (object_urls w) (length sel)
      ∧ object_urls (ImageOnly.handleFileChange sel w)
        = (object_urls w + length sel)%nat
      ∧ effects_unchanged w (ImageOnly.handleFileChange sel w).
Proof.
  split.
  { unfold ImageOnly.handleFileChange, setFiles. simpl.
    rewrite app_nil_r. by destruct w. }
  destruct (image_newFiles_spec sel w) as (Hf & Hall & Hser & Hurls & Heff).
  destruct (image_newFiles_ids sel w) as [_ Hfiles].
  unfold ImageOnly.handleFileChange.
  destruct (ImageOnly.newFiles sel w) as [new w1]. cbn [fst snd] in *.
  exists new. simpl. by rewrite Hfiles.
Qed.

(** X2.  Intake in the batch component appends one entry per selected file,
    in selection order, after the entries already stored.  A file whose
    declared MIME type starts with ["image/"] becomes an image entry with
    size 800 x 600 and a preview URL created for it; every other file,
    whatever it is, becomes a document entry with neither preview nor size.
    Object URLs are created for the images only.  Nothing is revoked,
    downloaded or logged, and an empty selection changes nothing. *)
Theorem batch_intake_classifies (w : World) (sel : list File) :
  Batch.handleFileChange [] w = w
  ∧ ∃ new,
      files (Batch.handleFileChange sel w) = files w ++ new
      ∧ (file <$> new) = sel
      ∧ Forall (λ e, outputFilename e = JsString.strip_extension (file_name (file e))
                     ∧ if declared_image (file e)
                       then type e = Some image
                            ∧ width e = Some 800 ∧ height e = Some 600
                            ∧ ∃ h, preview e = Some h
                                   ∧ url_target h = RBlob (FileBlob (file e))
                       else type e = Some pdf ∧ preview e = None
                            ∧ width e = None ∧ height e = None) new
      ∧ (url_serial <$> omap preview new)
        = seq (object_urls w) (length (filter (λ f, declared_image f) sel))
      ∧ object_urls (Batch.handleFileChange sel w)
        = (object_urls w + length (filter (λ f, declared_image f) sel))%nat
      ∧ effects_unchanged w (Batch.handleFileChange sel w).
Proof.
  split.
  { unfold Batch.handleFileChange, setFiles. simpl.
    rewrite app_nil_r. by destruct w. }
  destruct (batch_newFiles_spec sel w) as (Hf & Hall & Hser & Hurls & Heff).
  destruct (batch_newFiles_ids sel w) as [_ Hfiles].
  unfold Batch.handleFileChange.
  destruct (Batch.newFiles sel w) as [new w1]. cbn [fst snd] in *.
  exists new. simpl. by rewrite Hfiles.
Qed.

End IntakeFrame.

(** ** Default output names *)

Section DefaultNames.

Lemma all_ext_chars_iff s :
  JsString.all_ext_chars s = dotless s && slashless s.
Proof.
  induction s as [|c s IH]; [done|]. simpl. rewrite IH.
  unfold JsString.ext_char.
  destruct (bool_decide (c = "/"%char)), (bool_decide (c = "."%char)),
    (dotless s), (slashless s); done.
Qed.

Lemma all_ext_chars_dot a b :
  JsString.all_ext_chars (a +:+ String "."%char b) = false.
Proof.
  induction a as [|c a IH]; simpl.
  - done.
  - rewrite IH. apply andb_false_r.
Qed.

Lemma strip_extension_dotted stem ext :
  dotless ext = true → slashless ext = true → ext ≠ EmptyString →
  JsString.strip_extension (stem +:+ String "."%char ext) = stem.
Proof.
  intros Hd Hs Hne. induction stem as [|c stem IH]; simpl.
  - by rewrite (bool_decide_eq_false_2 _ Hne), all_ext_chars_iff, Hd, Hs.
  - rewrite all_ext_chars_dot, andb_false_r. by rewrite IH.
Qed.

(** X3.  For a source name of the form stem, dot, extension, where the
    extension is not empty and contains neither a dot nor a slash, the
    default output name is the stem, the extension the processor appends is
    that extension, and the two put together give back the source name. *)
Theorem default_output_name_round_trip stem ext :
  dotless ext = true → slashless ext = true → ext ≠ EmptyString →
  JsString.strip_extension (stem +:+ "." +:+ ext) = stem
  ∧ extension_of (stem +:+ "." +:+ ext) = ext
  ∧ JsString.strip_extension (stem +:+ "." +:+ ext) +:+ "."
      +:+ extension_of (stem +:+ "." +:+ ext)
    = stem +:+ "." +:+ ext.
Proof.
  intros Hd Hs Hne.
  assert (JsString.strip_extension (stem +:+ "." +:+ ext) = stem) as Hstrip
    by (by apply strip_extension_dotted).
  assert (extension_of (stem +:+ "." +:+ ext) = ext) as Hext
    by (by apply extension_of_dotted).
  by rewrite Hstrip, Hext.
Qed.

(** X4.  The intake regular expression only ever removes a final extension:
    the default output name is either the whole source name, or the source
    name without a suffix made of a dot and one or more characters that are
    neither dots nor slashes. *)
Theorem strip_extension_removes_a_suffix name :
  JsString.strip_extension name = name
  ∨ ∃ ext, name = JsString.strip_extension name +:+ "." +:+ ext
           ∧ ext ≠ EmptyString ∧ dotless ext = true ∧ slashless ext = true.
Proof.
  induction name as [|c name IH]; [by left|]. simpl.
  destruct (bool_decide (c = "."%char)) eqn:Hc; simpl.
  - apply bool_decide_eq_true in Hc as ->.
    destruct (bool_decide (name = EmptyString)) eqn:Hn; simpl.
    + apply bool_decide_eq_true in Hn as ->. by left.
    + apply bool_decide_eq_false in Hn.
      destruct (JsString.all_ext_chars name) eqn:Hall.
      * right. exists name. rewrite all_ext_chars_iff in Hall.
        apply andb_prop in Hall as [Hd Hs]. done.
      * destruct IH as [->|(ext & Hname & Hext)]; [by left|].
        right. exists ext. split; [|done].
        change (String "."%char name
                = String "."%char (JsString.strip_extension name +:+ "." +:+ ext)).
        by f_equal.
  - destruct IH as [->|(ext & Hname & Hext)]; [by left|].
    right. exists ext. split; [|done].
    change (String c name
            = String c (JsString.strip_extension name +:+ "." +:+ ext)).
    by f_equal.
Qed.

End DefaultNames.

Lemma default_output_name_round_trip_witness :
  JsString.strip_extension "a.tar.gz" = "a.tar"
  ∧ extension_of "a.tar.gz" = "gz"
  ∧ JsString.strip_extension "a.tar.gz" +:+ "." +:+ extension_of "a.tar.gz"
    = "a.tar.gz".
Proof.
  apply (default_output_name_round_trip "a.tar" "gz");
    [reflexivity|reflexivity|discriminate].
Defined.

(** ** How the store operations compose *)

Section StoreAlgebra.
Implicit Types (w : World) (i j : string) (f : FileState) (l : list FileState)
  (u v : Updates).

Lemma removeFile_files i w :
  files (removeFile i w) = filter_out_id i (files w).
Proof. unfold removeFile. by destruct (find_by_id i (files w) ≫= preview). Qed.

Lemma filter_out_id_filter i l :
  filter_out_id i l = filter (λ f, id f ≠ i) l.
Proof.
  induction l as [|f l IH]; [done|]. simpl.
  destruct (decide (id f = i)) as [Heq|Hne].
  - rewrite filter_cons_False by (intros Hn; by apply Hn). done.
  - rewrite filter_cons_True by done. by rewrite IH.
Qed.

Lemma find_by_id_elem i l f : find_by_id i l = Some f → f ∈ l ∧ id f = i.
Proof.
  induction l as [|g l IH]; simpl; [done|].
  destruct (decide (id g = i)) as [Heq|Hne].
  - intros [= ->]. split; [left|done].
  - intros Hf. destruct (IH Hf) as [Hin Hid]. split; [by right|done].
Qed.

(** X5.  Whatever ids the store holds, [removeFile i] keeps exactly the
    entries whose id is not [i], in their order; it revokes nothing, or one
    URL, which is the preview of a stored entry with id [i]; and a second
    [removeFile i] changes nothing more, so no URL is revoked twice by
    repeating the call. *)
Theorem removeFile_idempotent (w : World) (i : string) :
  files (removeFile i w) = filter (λ f, id f ≠ i) (files w)
  ∧ (i ∉ id <$> files (removeFile i w))
  ∧ (revoked (removeFile i w) = revoked w
     ∨ ∃ f h, f ∈ files w ∧ id f = i ∧ preview f = Some h
              ∧ revoked (removeFile i w) = revoked w ++ [h])
  ∧ removeFile i (removeFile i w) = removeFile i w.
Proof.
  assert (i ∉ id <$> files (removeFile i w)) as Hgone.
  { rewrite removeFile_files. apply filter_out_id_gone. }
  split; [by rewrite removeFile_files, filter_out_id_filter|].
  split; [done|]. split.
  - unfold removeFile.
    destruct (find_by_id i (files w)) as [f|] eqn:Hfind; simpl; [|by left].
    destruct (preview f) as [h|] eqn:Hp; simpl; [|by left].
    right. destruct (find_by_id_elem _ _ _ Hfind) as [Hin Hid].
    by exists f, h.
  - unfold removeFile at 1.
    rewrite find_by_id_absent by done. simpl.
    apply setFiles_same. by rewrite filter_out_id_absent.
Qed.

Lemma filter_out_id_comm i j l :
  filter_out_id i (filter_out_id j l) = filter_out_id j (filter_out_id i l).
Proof.
  induction l as [|f l IH]; [done|]. simpl.
  destruct (decide (id f = j)), (decide (id f = i)); simpl;
    rewrite ?decide_True, ?decide_False by done; by rewrite IH.
Qed.

Lemma find_by_id_filter_other i j l :
  i ≠ j → find_by_id i (filter_out_id j l) = find_by_id i l.
Proof.
  intros Hne. induction l as [|f l IH]; [done|]. simpl.
  destruct (decide (id f = j)) as [Hj|Hj]; simpl.
  - rewrite decide_False by congruence. done.
  - destruct (decide (id f = i)); [done|exact IH].
Qed.

Lemma removeFile_revoked i w :
  revoked (removeFile i w)
  = revoked w ++ match find_by_id i (files w) ≫= preview with
                 | Some h => [h] | None => [] end.
Proof.
  unfold removeFile.
  destruct (find_by_id i (files w) ≫= preview); simpl; [done|].
  by rewrite app_nil_r.
Qed.

Lemma removeFile_frame i w :
  downloads (removeFile i w) = downloads w
  ∧ console (removeFile i w) = console w
  ∧ processing (removeFile i w) = processing w
  ∧ canvas (removeFile i w) = canvas w
  ∧ object_urls (removeFile i w) = object_urls w
  ∧ random_calls (removeFile i w) = random_calls w.
Proof. unfold removeFile. by destruct (find_by_id i (files w) ≫= preview). Qed.

(** X6.  Removing two entries with different ids gives the same store in
    either order, and the same URLs end up revoked; downloads, console,
    busy flag and the count of object URLs are the same too. *)
Theorem removeFile_order_irrelevant (w : World) (i j : string) :
  i ≠ j →
  files (removeFile i (removeFile j w)) = files (removeFile j (removeFile i w))
  ∧ revoked (removeFile i (removeFile j w))
    ≡ₚ revoked (removeFile j (removeFile i w))
  ∧ downloads (removeFile i (removeFile j w))
    = downloads (removeFile j (removeFile i w))
  ∧ console (removeFile i (removeFile j w))
    = console (removeFile j (removeFile i w))
  ∧ processing (removeFile i (removeFile j w))
    = processing (removeFile j (removeFile i w))
  ∧ object_urls (removeFile i (removeFile j w))
    = object_urls (removeFile j (removeFile i w)).
Proof.
  intros Hne.
  destruct (removeFile_frame i (removeFile j w)) as (Hd1 & Hc1 & Hp1 & _ & Hu1 & _).
  destruct (removeFile_frame j w) as (Hd2 & Hc2 & Hp2 & _ & Hu2 & _).
  destruct (removeFile_frame j (removeFile i w)) as (Hd3 & Hc3 & Hp3 & _ & Hu3 & _).
  destruct (removeFile_frame i w) as (Hd4 & Hc4 & Hp4 & _ & Hu4 & _).
  split; [by rewrite !removeFile_files, filter_out_id_comm|].
  split; [|repeat split; congruence].
  rewrite !removeFile_revoked, !removeFile_files.
  rewrite !find_by_id_filter_other by done.
  rewrite <- !app_assoc. apply Permutation_app_head, Permutation_app_comm.
Qed.

Lemma spread_merge f u v :
  spread (spread f u) v = spread f (merge_updates u v).
Proof.
  unfold spread, merge_updates. simpl.
  by destruct (upd_outputFilename v), (upd_width v), (upd_height v),
    (upd_outputFilename u), (upd_width u), (upd_height u).
Qed.

Lemma update_map_compose i u v l :
  map (λ f, if decide (id f = i) then spread f v else f)
      (map (λ f, if decide (id f = i) then spread f u else f) l)
  = map (λ f, if decide (id f = i) then spread f (merge_updates u v) else f) l.
Proof.
  induction l as [|f l IH]; [done|]. simpl. rewrite IH. f_equal.
  destruct (decide (id f = i)) as [Heq|Hne]; simpl.
  - rewrite decide_True by done. apply spread_merge.
  - by rewrite decide_False.
Qed.

(** X7.  Two successive [updateFileSettings] on the same id amount to one,
    with the later update taking precedence key by key; in particular
    repeating an update changes nothing more, and an update object without
    any of the three keys changes nothing. *)
Theorem updateFileSettings_composes (w : World) (i : string) (u v : Updates) :
  updateFileSettings i v (updateFileSettings i u w)
  = updateFileSettings i (merge_updates u v) w
  ∧ updateFileSettings i u (updateFileSettings i u w) = updateFileSettings i u w
  ∧ updateFileSettings i
      {| upd_outputFilename := None; upd_width := None; upd_height := None |} w
    = w.
Proof.
  assert (∀ u v, updateFileSettings i v (updateFileSettings i u w)
                 = updateFileSettings i (merge_updates u v) w) as Hcomp.
  { intros u' v'. unfold updateFileSettings, setFiles. simpl.
    by rewrite update_map_compose. }
  split; [apply Hcomp|]. split.
  - rewrite Hcomp. f_equal. unfold merge_updates.
    destruct u as [[?|] [?|] [?|]]; done.
  - unfold updateFileSettings, setFiles.
    assert (map (λ f, if decide (id f = i)
                      then spread f {| upd_outputFilename := None;
                                       upd_width := None; upd_height := None |}
                      else f) (files w) = files w) as ->.
    { induction (files w) as [|f l IH]; [done|]. simpl. rewrite IH. f_equal.
      destruct (decide (id f = i)); [|done]. by destruct f. }
    by destruct w.
Qed.

Lemma update_map_comm i j u v l :
  i ≠ j →
  map (λ f, if decide (id f = i) then spread f u else f)
      (map (λ f, if decide (id f = j) then spread f v else f) l)
  = map (λ f, if decide (id f = j) then spread f v else f)
        (map (λ f, if decide (id f = i) then spread f u else f) l).
Proof.
  intros Hne. induction l as [|f l IH]; [done|]. simpl. rewrite IH. f_equal.
  destruct (decide (id f = j)) as [Hj|Hj], (decide (id f = i)) as [Hi|Hi];
    simpl; try congruence;
    repeat (first [rewrite decide_True by done | rewrite decide_False by done]);
    done.
Qed.

Lemma filter_out_id_update i j u l :
  filter_out_id i (map (λ f, if decide (id f = j) then spread f u else f) l)
  = map (λ f, if decide (id f = j) then spread f u else f) (filter_out_id i l).
Proof.
  induction l as [|f l IH]; [done|]. simpl.
  assert (id (if decide (id f = j) then spread f u else f) = id f) as ->
    by (by destruct (decide (id f = j))).
  destruct (decide (id f = i)); simpl; by rewrite IH.
Qed.

Lemma find_by_id_update i j u l :
  find_by_id i (map (λ f, if decide (id f = j) then spread f u else f) l)
    ≫= preview
  = find_by_id i l ≫= preview.
Proof.
  induction l as [|f l IH]; [done|]. simpl.
  assert (id (if decide (id f = j) then spread f u else f) = id f) as ->
    by (by destruct (decide (id f = j))).
  destruct (decide (id f = i)); [|exact IH]. simpl.
  by destruct (decide (id f = j)).
Qed.

(** X8.  Updates of entries with different ids can be made in either order,
    and an update can be made before or after any removal: the resulting
    world is the same, including what has been revoked. *)
Theorem store_operations_commute (w : World) (i j : string) (u v : Updates) :
  (i ≠ j →
     updateFileSettings i u (updateFileSettings j v w)
     = updateFileSettings j v (updateFileSettings i u w))
  ∧ removeFile i (updateFileSettings j u w)
    = updateFileSettings j u (removeFile i w).
Proof.
  split.
  - intros Hne. unfold updateFileSettings, setFiles. simpl.
    by rewrite update_map_comm.
  - unfold removeFile, updateFileSettings.
    cbn [files setFiles]. rewrite find_by_id_update, filter_out_id_update.
    by destruct (find_by_id i (files w) ≫= preview).
Qed.

End StoreAlgebra.

Lemma removeFile_order_irrelevant_witness :
  let x := image_entry "x" 0 (png_file "a.png") "a" 800 600 in
  let y := image_entry "y" 1 (png_file "b.png") "b" 640 480 in
  let z := image_entry "z" 2 (png_file "c.png") "c" 800 600 in
  files (removeFile "x" (removeFile "z" (with_files [x; y; z])))
    = files (removeFile "z" (removeFile "x" (with_files [x; y; z])))
  ∧ revoked (removeFile "x" (removeFile "z" (with_files [x; y; z])))
    ≡ₚ revoked (removeFile "z" (removeFile "x" (with_files [x; y; z]))).
Proof.
  intros x y z.
  destruct (removeFile_order_irrelevant (with_files [x; y; z]) "x" "z")
    as (Hf & Hr & _); [discriminate|].
  split; [exact Hf|exact Hr].
Defined.

(** ** More on [Promise.all] *)

Section PromiseAll.
Context {A : Type}.
Implicit Types (o : outcome A) (os : list (outcome A)).

(** A rejected input makes [Promise.all] reject, with the reason of one of
    the rejected inputs, whatever the other inputs do. *)
Lemma promise_all_rejected os e :
  Rejected e ∈ os → ∃ e', promise_all os = Rejected e' ∧ Rejected e' ∈ os.
Proof.
  induction os as [|o os IH]; intros Hin; [by apply elem_of_nil in Hin|].
  simpl. destruct o as [a|e1|].
  - apply elem_of_cons in Hin as [|Hin]; [done|].
    destruct (IH Hin) as (e' & -> & He'). exists e'. split; [done|by right].
  - exists e1. split; [done|left].
  - apply elem_of_cons in Hin as [|Hin]; [done|].
    destruct (IH Hin) as (e' & -> & He'). exists e'. split; [done|by right].
Qed.

Lemma promise_all_pending_inv os :
  promise_all os = Pending → Pending ∈ os ∧ ∀ e, Rejected e ∉ os.
Proof.
  intros Hall. split.
  - induction os as [|o os IH]; simpl in Hall; [done|].
    destruct o as [a|e|]; [|done|left].
    destruct (promise_all os); try done. right. by apply IH.
  - intros e He. destruct (promise_all_rejected os e He) as (e' & Hrej & _).
    congruence.
Qed.

End PromiseAll.

(** ** Complete runs *)

Section Runs.
Context `{Browser}.
Implicit Types (w : World) (f : FileState) (l : list FileState).

Lemma download_urls_cons n d ds :
  download_urls n (d :: ds)
  = {| url_serial := n; url_target := d.2 |} :: download_urls (S n) ds.
Proof.
  unfold download_urls. rewrite imap_cons, Nat.add_0_r. f_equal.
  apply imap_ext. intros k x _. simpl. f_equal. lia.
Qed.

Lemma for_of_urls l : ∀ w,
  ∃ ds,
    downloads (for_of l ImageOnly.processAndDownloadImage w).1 = downloads w ++ ds
    ∧ revoked (for_of l ImageOnly.processAndDownloadImage w).1
      = revoked w ++ download_urls (object_urls w) ds
    ∧ object_urls (for_of l ImageOnly.processAndDownloadImage w).1
      = (object_urls w + length ds)%nat.
Proof.
  induction l as [|f l IH]; intros w.
  - exists []. simpl. by rewrite !app_nil_r, Nat.add_0_r.
  - pose proof (processAndDownloadImage_cases f w) as Hc.
    simpl. unfold await.
    destruct (image_artifact f) as [a|].
    + destruct Hc as (w1 & -> & Hd & _ & _ & _ & Hu & Hr).
      destruct (IH w1) as (ds & Hd' & Hr' & Hu').
      exists ((a.2, RBlob a.1) :: ds).
      rewrite Hd', Hr', Hu', Hd, Hr, Hu, download_urls_cons, <- !app_assoc.
      simpl. repeat split; first [done|lia].
    + destruct Hc as (w1 & -> & Hd & _ & _ & _ & Hu & Hr).
      exists []. simpl. by rewrite !app_nil_r, Nat.add_0_r.
Qed.

Lemma image_run_urls w :
  ∃ ds,
    downloads (ImageOnly.handleProcessAndDownload w).1 = downloads w ++ ds
    ∧ revoked (ImageOnly.handleProcessAndDownload w).1
      = revoked w ++ download_urls (object_urls w) ds
    ∧ object_urls (ImageOnly.handleProcessAndDownload w).1
      = (object_urls w + length ds)%nat
    ∧ files (ImageOnly.handleProcessAndDownload w).1 = files w.
Proof.
  destruct (for_of_urls (files w) (setProcessing true w)) as (ds & Hd & Hr & Hu).
  exists ds. rewrite handleProcessAndDownload_files.
  unfold ImageOnly.handleProcessAndDownload.
  case_bool_decide as Hlen.
  - apply length_zero_iff_nil in Hlen. rewrite Hlen in Hd, Hr, Hu.
    simpl in *. by rewrite <- Hd, <- Hr, <- Hu.
  - unfold try_catch_finally.
    by destruct (for_of _ _ _) as [w1 [[]|e|]].
Qed.

Lemma batch_run_urls w :
  ∃ ds,
    downloads (Batch.processAndDownload w).1 = downloads w ++ ds
    ∧ revoked (Batch.processAndDownload w).1
      = revoked w ++ download_urls (object_urls w) ds
    ∧ object_urls (Batch.processAndDownload w).1
      = (object_urls w + length ds)%nat
    ∧ files (Batch.processAndDownload w).1 = files w
    ∧ (length ds ≤ 1)%nat.
Proof.
  rewrite processAndDownload_files.
  pose proof (package_cases (files w) (setProcessing true w))
    as (Hpk & _ & _ & _).
  unfold Batch.processAndDownload.
  case_bool_decide as Hlen.
  { exists []. simpl. rewrite !app_nil_r, Nat.add_0_r.
    repeat split; first [done|lia]. }
  unfold try_catch_finally.
  destruct (Batch.package (files w) (setProcessing true w)) as [w1 o].
  cbn [fst snd] in *.
  destruct (promise_all _) as [arts|e|].
  - destruct Hpk as (-> & Hd & Hu & Hr).
    exists [("processed_files.zip", RZip (Batch.zip_all arts ∅))].
    simpl. rewrite Hd, Hu, Hr. unfold download_urls. simpl.
    rewrite Nat.add_0_r. repeat split; first [done|lia].
  - destruct Hpk as (-> & Hd & Hu & Hr).
    exists []. simpl. rewrite Hd, Hu, Hr, !app_nil_r. simpl.
    repeat split; first [done|lia].
  - destruct Hpk as (-> & Hd & Hu & Hr).
    exists []. simpl. rewrite Hd, Hu, Hr, !app_nil_r. simpl.
    repeat split; first [done|lia].
Qed.

(** X9.  A run of either component revokes exactly the temporary object
    URLs it created for its own downloads, one per download and in the
    order of the downloads, each created for the resource that was
    downloaded; it creates no other object URL, revokes nothing else and
    leaves the store as it is.  The batch component downloads at most once
    per run. *)
Theorem runs_revoke_their_own_urls (w : World) :
  (∃ ds,
     downloads (ImageOnly.handleProcessAndDownload w).1 = downloads w ++ ds
     ∧ revoked (ImageOnly.handleProcessAndDownload w).1
       = revoked w ++ download_urls (object_urls w) ds
     ∧ object_urls (ImageOnly.handleProcessAndDownload w).1
       = (object_urls w + length ds)%nat
     ∧ files (ImageOnly.handleProcessAndDownload w).1 = files w)
  ∧ (∃ ds,
       downloads (Batch.processAndDownload w).1 = downloads w ++ ds
       ∧ revoked (Batch.processAndDownload w).1
         = revoked w ++ download_urls (object_urls w) ds
       ∧ object_urls (Batch.processAndDownload w).1
         = (object_urls w + length ds)%nat
       ∧ files (Batch.processAndDownload w).1 = files w
       ∧ (length ds ≤ 1)%nat).
Proof. split; [apply image_run_urls|apply batch_run_urls]. Qed.

End Runs.

(** ** How runs end *)

Section RunOutcomes.
Context `{Browser}.
Implicit Types (w : World) (f : FileState) (l : list FileState).

Lemma for_of_outcome l w :
  console (for_of l ImageOnly.processAndDownloadImage w).1 = console w
  ∧ ((for_of l ImageOnly.processAndDownloadImage w).2 = Resolved tt
     ∧ Forall (λ f, is_Some (image_artifact f)) l
     ∨ (for_of l ImageOnly.processAndDownloadImage w).2 = Pending
       ∧ ¬ Forall (λ f, is_Some (image_artifact f)) l).
Proof.
  destruct (decide (Forall (λ f, is_Some (image_artifact f)) l)) as [Hall|Hnot].
  - destruct (for_of_all_succeed l w Hall) as (w' & -> & _ & _ & Hc & _).
    split; [done|by left].
  - apply not_Forall_Exists in Hnot as Hex; [|apply _].
    apply Exists_exists in Hex as (x & Hin & Hx).
    destruct (for_of_suspended l x w Hin) as (w' & -> & _ & Hc).
    { simpl in Hx. destruct (image_artifact x); [|done].
      destruct Hx. by eexists. }
    split; [done|by right].
Qed.

(** X10.  A run of the image-only component never logs anything and its
    promise is never rejected; it is fulfilled exactly when every entry of
    the store is processed successfully, and it then has downloaded one
    file per entry, in store order, and (the store not being empty) has
    cleared the busy flag. *)
Theorem image_run_settles_iff_all_succeed (w : World) :
  console (ImageOnly.handleProcessAndDownload w).1 = console w
  ∧ (∀ e, (ImageOnly.handleProcessAndDownload w).2 ≠ Rejected e)
  ∧ ((ImageOnly.handleProcessAndDownload w).2 = Resolved tt
     ↔ Forall (λ f, (ImageOnly.processAndDownloadImage f w).2 = Resolved tt)
              (files w))
  ∧ ((ImageOnly.handleProcessAndDownload w).2 = Resolved tt →
       downloads (ImageOnly.handleProcessAndDownload w).1
         = downloads w ++ emitted (files w)
       ∧ length (emitted (files w)) = length (files w)
       ∧ (files w ≠ [] →
            processing (ImageOnly.handleProcessAndDownload w).1 = false)).
Proof.
  assert (Forall (λ f, (ImageOnly.processAndDownloadImage f w).2 = Resolved tt)
                 (files w)
          ↔ Forall (λ f, is_Some (image_artifact f)) (files w)) as Hiff.
  { split; intros HF; (eapply Forall_impl; [exact HF|]); intros f Hf;
      simpl in *; by apply (image_success_iff f w). }
  rewrite Hiff.
  unfold ImageOnly.handleProcessAndDownload.
  case_bool_decide as Hlen.
  { apply length_zero_iff_nil in Hlen. rewrite Hlen. simpl.
    rewrite app_nil_r. repeat split; done. }
  destruct (for_of_outcome (files w) (setProcessing true w)) as [Hc Hcases].
  unfold try_catch_finally.
  destruct Hcases as [[Ho Hall]|[Ho Hnot]].
  - destruct (for_of_all_succeed (files w) (setProcessing true w) Hall)
      as (w' & Hrun & Hd & _).
    rewrite Hrun in *. simpl.
    split; [done|]. split; [done|]. split; [done|].
    intros _. split; [done|]. split; [|done].
    symmetry. eapply Forall2_length, emitted_all_succeed, Hall.
  - destruct (for_of _ _ _) as [w' o]. simpl in *. subst o.
    split; [done|]. split; [done|]. split; [|done].
    split; [done|]. intros Hall. by destruct Hnot.
Qed.

(** X11.  In the batch component, as soon as the promise of one entry is
    rejected the run is settled, whatever the other entries do, even if
    some of them never settle: the rejection is caught and logged once
    under the label of the component, with the reason of an entry that was
    rejected, the busy flag is cleared and nothing is downloaded. *)
Theorem batch_rejection_is_caught (w : World) (f : FileState) (e : string) :
  f ∈ files w →
  (Batch.processFile f w).2 = Rejected e →
  ∃ e' g,
    g ∈ files w ∧ (Batch.processFile g w).2 = Rejected e'
    ∧ (Batch.processAndDownload w).2 = Resolved tt
    ∧ console (Batch.processAndDownload w).1
      = console w ++ [("Error processing files:", e')]
    ∧ processing (Batch.processAndDownload w).1 = false
    ∧ downloads (Batch.processAndDownload w).1 = downloads w.
Proof.
  intros Hin Hrej.
  assert (Rejected e ∈ (λ g, (Batch.processFile g (setProcessing true w)).2)
                         <$> files w) as Hos.
  { rewrite <- Hrej, (processFile_outcome_indep f w (setProcessing true w)).
    by apply (list_elem_of_fmap_2
                (λ g, (Batch.processFile g (setProcessing true w)).2)). }
  destruct (promise_all_rejected _ _ Hos) as (e' & Hall & He').
  apply list_elem_of_fmap in He' as (g & Hg & Hgin).
  rewrite (processFile_outcome_indep g _ w) in Hg.
  exists e', g. split; [done|]. split; [done|].
  pose proof (package_cases (files w) (setProcessing true w))
    as (Hpk & Hp & Hc & _).
  rewrite Hall in Hpk. destruct Hpk as (Ho & Hd & _).
  unfold Batch.processAndDownload.
  rewrite bool_decide_eq_false_2.
  2:{ intros Hl%length_zero_iff_nil. rewrite Hl in Hin.
      by apply elem_of_nil in Hin. }
  unfold try_catch_finally.
  destruct (Batch.package (files w) (setProcessing true w)) as [w1 o].
  cbn [fst snd] in *. subst o. simpl. by rewrite Hc, Hd.
Qed.

(** X12.  The promise of a batch run is never rejected, and it stays
    unsettled exactly when no entry's promise is rejected and the promise
    of at least one entry never settles. *)
Theorem batch_run_hangs_iff (w : World) :
  (∀ e, (Batch.processAndDownload w).2 ≠ Rejected e)
  ∧ ((Batch.processAndDownload w).2 = Pending
     ↔ (∀ f e, f ∈ files w → (Batch.processFile f w).2 ≠ Rejected e)
       ∧ ∃ f, f ∈ files w ∧ (Batch.processFile f w).2 = Pending).
Proof.
  pose proof (package_cases (files w) (setProcessing true w))
    as (Hpk & _ & _ & _).
  assert (∀ o, o ∈ (λ g, (Batch.processFile g (setProcessing true w)).2)
                     <$> files w
               ↔ ∃ g, g ∈ files w ∧ (Batch.processFile g w).2 = o) as Hos.
  { intros o. rewrite list_elem_of_fmap. split.
    - intros (g & -> & Hgin). exists g. split; [done|].
      apply processFile_outcome_indep.
    - intros (g & Hgin & <-). exists g. split; [|done].
      apply processFile_outcome_indep. }
  unfold Batch.processAndDownload.
  case_bool_decide as Hlen.
  { apply length_zero_iff_nil in Hlen. rewrite Hlen. simpl.
    split; [done|]. split; [done|].
    intros (_ & g & Hg & _). by apply elem_of_nil in Hg. }
  unfold try_catch_finally.
  destruct (Batch.package (files w) (setProcessing true w)) as [w1 o].
  cbn [fst snd] in *.
  destruct (promise_all _) as [arts|e|] eqn:Hall.
  - destruct Hpk as (-> & _). simpl. split; [done|]. split; [done|].
    intros (_ & g & Hgin & Hg).
    assert (Pending ∈ (λ g, (Batch.processFile g (setProcessing true w)).2)
                        <$> files w) as Hp by (apply Hos; by exists g).
    by destruct (promise_all_unfulfilled _ Pending Hp) with arts.
  - destruct Hpk as (-> & _). simpl. split; [done|]. split; [done|].
    intros (Hrej & _).
    destruct (promise_all_rejected_inv _ _ Hall) as (e' & He').
    apply Hos in He' as (g & Hgin & Hg). by destruct (Hrej g e' Hgin).
  - destruct Hpk as (-> & _). simpl. split; [done|]. split; [|done].
    intros _. destruct (promise_all_pending_inv _ Hall) as [Hp Hrej].
    split.
    + intros g e Hgin Hg. apply (Hrej e), Hos. by exists g.
    + apply Hos in Hp as (g & Hgin & Hg). by exists g.
Qed.

End RunOutcomes.

Lemma batch_rejection_is_caught_witness :
  let a := image_entry "x" 0 (broken_file "a.png") "a" 800 600 in
  let b := pdf_entry "y" (broken_file "b.pdf") "b" in
  (@Batch.processAndDownload sample_browser (with_files [a; b])).2 = Resolved tt
  ∧ processing (@Batch.processAndDownload sample_browser (with_files [a; b])).1
    = false
  ∧ downloads (@Batch.processAndDownload sample_browser (with_files [a; b])).1
    = [].
Proof.
  intros a b.
  destruct (@batch_rejection_is_caught sample_browser (with_files [a; b]) b
              "Failed to parse PDF document")
    as (e' & g & _ & _ & Ho & _ & Hp & Hd).
  - right. left.
  - reflexivity.
  - split; [exact Ho|]. split; [exact Hp|exact Hd].
Defined.

(** ** What the archive holds *)

Section ArchiveContents.
Implicit Types (zip : gmap string Blob) (arts : list (Blob * string)).

Lemma zip_all_names arts : ∀ zip name,
  is_Some (Batch.zip_all arts zip !! name)
  ↔ name ∈ arts.*2 ∨ is_Some (zip !! name).
Proof.
  induction arts as [|[b n] arts IH]; intros zip name.
  - simpl. split; [by right|]. intros [Hin|]; [|done].
    by apply elem_of_nil in Hin.
  - rewrite zip_all_cons, IH, fmap_cons, elem_of_cons. unfold Batch.zip_file.
    rewrite lookup_insert_is_Some. simpl.
    destruct (decide (n = name)) as [->|Hne]; [tauto|].
    assert (name ≠ n) by congruence. tauto.
Qed.

Lemma zip_all_holds_each arts zip b name :
  NoDup arts.*2 → (b, name) ∈ arts →
  Batch.zip_all arts zip !! name = Some b.
Proof.
  intros Hnd Hin.
  apply list_elem_of_split in Hin as (l1 & l2 & ->).
  apply zip_all_last_wins.
  rewrite fmap_app, fmap_cons in Hnd.
  apply NoDup_app in Hnd as (_ & _ & Hnd).
  by apply NoDup_cons in Hnd as [Hn _].
Qed.

Context `{Browser}.

(** X13.  When every entry of a non-empty store is processed successfully,
    the batch run downloads exactly one file, named
    ["processed_files.zip"], logs nothing and clears the busy flag.  The
    archive holds a file under the file name of every artifact, and when
    the file names are pairwise distinct the file under the name of each
    artifact is that artifact's blob. *)
Theorem batch_success_archive (w : World) (arts : list (Blob * string)) :
  files w ≠ [] →
  Forall2 (λ f a, (Batch.processFile f w).2 = Resolved a) (files w) arts →
  let zip := Batch.zip_all arts ∅ in
  (Batch.processAndDownload w).2 = Resolved tt
  ∧ downloads (Batch.processAndDownload w).1
    = downloads w ++ [("processed_files.zip", RZip zip)]
  ∧ console (Batch.processAndDownload w).1 = console w
  ∧ processing (Batch.processAndDownload w).1 = false
  ∧ (∀ name, name ∈ arts.*2 → is_Some (zip !! name))
  ∧ (NoDup arts.*2 →
       ∀ b name, (b, name) ∈ arts → zip !! name = Some b).
Proof.
  intros Hne Hres zip.
  assert (promise_all ((λ g, (Batch.processFile g (setProcessing true w)).2)
                       <$> files w) = Resolved arts) as Hall.
  { apply promise_all_resolved. apply Forall2_fmap_l.
    eapply Forall2_impl; [exact Hres|]. intros g a Hg. simpl.
    rewrite <- Hg. apply processFile_outcome_indep. }
  pose proof (package_cases (files w) (setProcessing true w))
    as (Hpk & Hp & Hc & _).
  rewrite Hall in Hpk. destruct Hpk as (Ho & Hd & _).
  unfold Batch.processAndDownload.
  rewrite bool_decide_eq_false_2 by (by rewrite length_zero_iff_nil).
  unfold try_catch_finally.
  destruct (Batch.package (files w) (setProcessing true w)) as [w1 o].
  cbn [fst snd] in *. subst o. simpl.
  split; [done|]. split; [done|]. split; [done|]. split; [done|].
  split.
  - intros name Hin. subst zip. apply zip_all_names. by left.
  - intros Hnd b name Hin. by apply zip_all_holds_each.
Qed.

End ArchiveContents.

Lemma batch_success_archive_witness :
  let a := image_entry "x" 0 (png_file "x.png") "a" 800 600 in
  let b := image_entry "y" 1 (png_file "y.png") "b" 640 480 in
  let zip := Batch.zip_all [(sample_blob 800 600, "a.png");
                            (sample_blob 640 480, "b.png")] ∅ in
  downloads (@Batch.processAndDownload sample_browser (with_files [a; b])).1
    = [("processed_files.zip", RZip zip)]
  ∧ zip !! "a.png" = Some (sample_blob 800 600)
  ∧ zip !! "b.png" = Some (sample_blob 640 480).
Proof.
  intros a b zip.
  destruct (@batch_success_archive sample_browser (with_files [a; b])
              [(sample_blob 800 600, "a.png"); (sample_blob 640 480, "b.png")])
    as (_ & Hd & _ & _ & _ & Hall).
  - discriminate.
  - repeat constructor.
  - assert (NoDup ["a.png"; "b.png"]) as Hnd.
    { apply (bool_decide_unpack _). vm_compute. exact I. }
    split; [exact Hd|]. split.
    + apply (Hall Hnd). left.
    + apply (Hall Hnd). right. left.
Defined.

(** ** Preview handles over the life of a component *)

Section Handles.
Context `{Browser}.
Implicit Types (w : World) (f : FileState) (l : list FileState) (h : handle).

Lemma omap_sublist {A B} (g : A → option B) (l1 l2 : list A) :
  sublist l1 l2 → sublist (omap g l1) (omap g l2).
Proof.
  induction 1 as [|x l1 l2 _ IH|x l1 l2 _ IH]; simpl.
  - constructor.
  - destruct (g x); [by constructor|done].
  - destruct (g x); [by constructor|done].
Qed.

Lemma omap_cons_match {A B} (g : A → option B) (x : A) (l : list A) :
  omap g (x :: l)
  = match g x with Some y => y :: omap g l | None => omap g l end.
Proof. done. Qed.

Lemma previews_update i u w : previews (updateFileSettings i u w) = previews w.
Proof.
  unfold previews, updateFileSettings. simpl.
  induction (files w) as [|f l IH]; [done|].
  cbn [map]. rewrite !omap_cons_match, IH.
  by destruct (decide (id f = i)).
Qed.

(** The URL [removeFile] revokes is held by no entry that stays. *)
Lemma removed_preview_not_kept i l h :
  NoDup (url_serial <$> omap preview l) →
  find_by_id i l ≫= preview = Some h →
  h ∈ omap preview l
  ∧ url_serial h ∉ url_serial <$> omap preview (filter_out_id i l).
Proof.
  induction l as [|f l IH]; simpl; [done|].
  intros Hnd Hfind.
  pose proof (omap_sublist preview _ _ (filter_out_id_sublist i l)) as Hsub.
  destruct (decide (id f = i)) as [Hid|Hid]; simpl in Hfind.
  - rewrite Hfind in Hnd |- *. rewrite fmap_cons in Hnd.
    apply NoDup_cons in Hnd as [Hn _]. split; [left|].
    intros Hin. apply Hn. eapply elem_of_sublist; [exact Hin|].
    by apply fmap_sublist.
  - simpl. destruct (preview f) as [hf|].
    + rewrite fmap_cons in Hnd. apply NoDup_cons in Hnd as [Hn Hnd].
      destruct (IH Hnd Hfind) as [Hin Hout]. split; [by right|].
      rewrite fmap_cons. apply not_elem_of_cons. split; [|done].
      intros Heq. apply Hn. rewrite <- Heq.
      by apply (list_elem_of_fmap_2 url_serial).
    + by apply IH.
Qed.

Lemma removeFile_handles_live i w :
  handles_live w → handles_live (removeFile i w).
Proof.
  intros (Hnd & Hlive & Hrev).
  destruct (removeFile_frame i w) as (_ & _ & _ & _ & Hu & _).
  pose proof (omap_sublist preview _ _ (filter_out_id_sublist i (files w))) as Hsub.
  unfold handles_live, previews in *.
  rewrite removeFile_files, removeFile_revoked, Hu.
  split; [|split].
  - eapply sublist_NoDup; [exact Hnd|]. by apply fmap_sublist.
  - destruct (find_by_id i (files w) ≫= preview) as [h|] eqn:Hfind.
    + destruct (removed_preview_not_kept i (files w) h Hnd Hfind) as [Hin Hout].
      apply Forall_forall. intros h' Hh'.
      assert (h' ∈ omap preview (files w)) as Hold
        by (eapply elem_of_sublist; eauto).
      rewrite Forall_forall in Hlive. destruct (Hlive h' Hold) as [Hlt Hnr].
      split; [done|]. rewrite elem_of_app, list_elem_of_singleton.
      intros [Hr| ->]; [done|].
      apply Hout. by apply (list_elem_of_fmap_2 url_serial).
    + rewrite app_nil_r. rewrite Forall_forall in Hlive.
      apply Forall_forall. intros h' Hh'. apply Hlive.
      eapply elem_of_sublist; eauto.
  - apply Forall_app. split; [done|].
    destruct (find_by_id i (files w) ≫= preview) as [h|] eqn:Hfind; [|done].
    destruct (removed_preview_not_kept i (files w) h Hnd Hfind) as [Hin _].
    rewrite Forall_forall in Hlive. destruct (Hlive h Hin) as [Hlt _].
    by constructor.
Qed.

Lemma updateFileSettings_handles_live i u w :
  handles_live w → handles_live (updateFileSettings i u w).
Proof.
  unfold handles_live. by rewrite previews_update.
Qed.

(** Appending entries whose previews are the next URLs in creation order. *)
Lemma append_handles_live w w' new (k : nat) :
  handles_live w →
  files w' = files w ++ new →
  (url_serial <$> omap preview new) = seq (object_urls w) k →
  object_urls w' = (object_urls w + k)%nat →
  revoked w' = revoked w →
  handles_live w'.
Proof.
  intros (Hnd & Hlive & Hrev) Hfiles Hser Hurls Hrevoked.
  unfold handles_live, previews in *.
  rewrite Hfiles, omap_app, Hurls, Hrevoked.
  rewrite Forall_forall in Hlive. rewrite Forall_forall in Hrev.
  split; [|split].
  - rewrite fmap_app, Hser. apply NoDup_app. split; [done|].
    split; [|apply NoDup_seq].
    intros n Hn Hseq. apply elem_of_seq in Hseq.
    apply list_elem_of_fmap in Hn as (h & -> & Hh).
    destruct (Hlive h Hh). lia.
  - apply Forall_app. split; apply Forall_forall; intros h Hh.
    + destruct (Hlive h Hh). split; [lia|done].
    + assert (url_serial h ∈ seq (object_urls w) k) as Hseq.
      { rewrite <- Hser. by apply (list_elem_of_fmap_2 url_serial). }
      apply elem_of_seq in Hseq. split; [lia|].
      intros Hr. specialize (Hrev h Hr). lia.
  - apply Forall_forall. intros h Hh. specialize (Hrev h Hh). lia.
Qed.

Lemma download_urls_range n ds h :
  h ∈ download_urls n ds →
  (n ≤ url_serial h < n + length ds)%nat.
Proof.
  revert n. induction ds as [|d ds IH]; intros n Hin.
  - by apply elem_of_nil in Hin.
  - rewrite download_urls_cons in Hin.
    apply elem_of_cons in Hin as [->|Hin]; simpl; [lia|].
    specialize (IH _ Hin). lia.
Qed.

(** A step that keeps the store and revokes only URLs it created. *)
Lemma run_handles_live w w' ds :
  handles_live w →
  files w' = files w →
  revoked w' = revoked w ++ download_urls (object_urls w) ds →
  object_urls w' = (object_urls w + length ds)%nat →
  handles_live w'.
Proof.
  intros (Hnd & Hlive & Hrev) Hfiles Hrevoked Hurls.
  unfold handles_live, previews in *.
  rewrite Hfiles, Hrevoked, Hurls.
  rewrite Forall_forall in Hlive. rewrite Forall_forall in Hrev.
  split; [done|]. split; apply Forall_forall; intros h Hh.
  - destruct (Hlive h Hh) as [Hlt Hnr]. split; [lia|].
    rewrite elem_of_app. intros [Hr|Hr]; [done|].
    apply download_urls_range in Hr. lia.
  - apply elem_of_app in Hh as [Hh|Hh].
    + specialize (Hrev h Hh). lia.
    + apply download_urls_range in Hh. lia.
Qed.

Lemma batch_step_handles_live a w :
  handles_live w → handles_live (BatchView.step a w).
Proof.
  intros Hw. destruct a as [sel|i|i u|]; simpl.
  - destruct (batch_newFiles_spec sel w) as (_ & _ & Hser & Hurls & Hr & _).
    destruct (batch_newFiles_ids sel w) as [_ Hfiles].
    unfold Batch.handleFileChange.
    destruct (Batch.newFiles sel w) as [new w1]. cbn [fst snd] in *.
    eapply (append_handles_live w); [done| |exact Hser|done|done].
    simpl. by rewrite Hfiles.
  - by apply removeFile_handles_live.
  - by apply updateFileSettings_handles_live.
  - unfold BatchView.click. destruct (BatchView.disabled w); [done|].
    destruct (batch_run_urls w) as (ds & _ & Hr & Hu & Hf & _).
    by eapply run_handles_live.
Qed.

Lemma image_step_handles_live a w :
  handles_live w → handles_live (ImageOnlyView.step a w).
Proof.
  intros Hw. destruct a as [sel|i|i u|]; simpl.
  - destruct (image_newFiles_spec sel w) as (_ & _ & Hser & Hurls & Hr & _).
    destruct (image_newFiles_ids sel w) as [_ Hfiles].
    unfold ImageOnly.handleFileChange.
    destruct (ImageOnly.newFiles sel w) as [new w1]. cbn [fst snd] in *.
    eapply (append_handles_live w); [done| |exact Hser|done|done].
    simpl. by rewrite Hfiles.
  - by apply removeFile_handles_live.
  - by apply updateFileSettings_handles_live.
  - unfold ImageOnlyView.click. destruct (ImageOnlyView.disabled w); [done|].
    destruct (image_run_urls w) as (ds & _ & Hr & Hu & Hf).
    by eapply run_handles_live.
Qed.

End Handles.

(** ** Invariants over what the user does *)

Section Lifecycle.
Context `{Browser}.
Implicit Types (w : World) (a : action) (acts : list action).

Lemma foldl_invariant {S A} (P : S → Prop) (step : S → A → S) (xs : list A) :
  (∀ s x, P s → P (step s x)) → ∀ s, P s → P (foldl step s xs).
Proof.
  intros Hstep. induction xs as [|x xs IH]; intros s Hs; [done|].
  simpl. by apply IH, Hstep.
Qed.

(** X14.  Whatever the user does with either component, starting from the
    freshly mounted one (selecting files, removing entries, editing
    settings, clicking the button, in any number and order), every preview
    URL held by an entry of the store has been created, has not been
    revoked, and is held by that entry alone. *)
Theorem preview_handles_stay_live (acts : list action) :
  handles_live (foldl (λ w a, BatchView.step a w) initial acts)
  ∧ handles_live (foldl (λ w a, ImageOnlyView.step a w) initial acts).
Proof.
  assert (handles_live initial) as Hinit.
  { unfold handles_live, previews. simpl. split; [constructor|done]. }
  split.
  - apply (foldl_invariant handles_live); [|done].
    intros w a. apply batch_step_handles_live.
  - apply (foldl_invariant handles_live); [|done].
    intros w a. apply image_step_handles_live.
Qed.

Lemma append_accounted w w' new (k : nat) :
  handles_accounted w →
  files w' = files w ++ new →
  (url_serial <$> omap preview new) = seq (object_urls w) k →
  object_urls w' = (object_urls w + k)%nat →
  revoked w' = revoked w →
  handles_accounted w'.
Proof.
  unfold handles_accounted, previews. intros Hw Hfiles Hser Hurls Hrev.
  assert (length (omap preview new) = k) as Hlen.
  { rewrite <- (length_fmap url_serial), Hser. apply length_seq. }
  rewrite Hfiles, omap_app, length_app, Hurls, Hrev, Hlen. lia.
Qed.

Lemma run_accounted w w' ds :
  handles_accounted w →
  files w' = files w →
  revoked w' = revoked w ++ download_urls (object_urls w) ds →
  object_urls w' = (object_urls w + length ds)%nat →
  handles_accounted w'.
Proof.
  unfold handles_accounted, previews. intros Hw Hfiles Hrev Hurls.
  rewrite Hfiles, Hrev, Hurls, length_app.
  unfold download_urls. rewrite length_imap. lia.
Qed.

Lemma removeFile_accounted i w :
  NoDup (id <$> files w) → handles_accounted w →
  handles_accounted (removeFile i w).
Proof.
  intros Hnd Hw.
  destruct (removeFile_frame i w) as (_ & _ & _ & _ & Hu & _).
  unfold handles_accounted, previews in *.
  rewrite removeFile_files, removeFile_revoked, Hu, length_app.
  destruct (decide (i ∈ id <$> files w)) as [Hin|Hout].
  - apply list_elem_of_fmap in Hin as (f & Hid & Hf).
    apply list_elem_of_split in Hf as (pre & post & Hfiles).
    rewrite Hfiles in Hnd |- *.
    destruct (remove_unique i pre f post Hnd (eq_sym Hid)) as [-> ->].
    rewrite Hw, Hfiles, !omap_app, !length_app, omap_cons_match.
    simpl. destruct (preview f); simpl; lia.
  - rewrite filter_out_id_absent, find_by_id_absent by done. simpl. lia.
Qed.

(** X15.  The number of object URLs created so far equals the number of
    previews held in the store plus the number of URLs revoked: this holds
    for the freshly mounted component and is kept by intake, by settings
    updates and by runs in both components, and by a removal from a store
    whose ids are pairwise distinct.  Together with X14 it says that no
    object URL is ever left behind as long as ids do not collide. *)
Theorem object_urls_accounted_for (w : World) :
  handles_accounted initial
  ∧ (handles_accounted w →
     (∀ sel, handles_accounted (Batch.handleFileChange sel w)
             ∧ handles_accounted (ImageOnly.handleFileChange sel w))
     ∧ (∀ i u, handles_accounted (updateFileSettings i u w))
     ∧ handles_accounted (Batch.processAndDownload w).1
     ∧ handles_accounted (ImageOnly.handleProcessAndDownload w).1
     ∧ (∀ i, NoDup (id <$> files w) → handles_accounted (removeFile i w))).
Proof.
  split; [done|]. intros Hw. split; [|split; [|split; [|split]]].
  - intros sel. split.
    + destruct (batch_newFiles_spec sel w) as (_ & _ & Hser & Hurls & Hr & _).
      destruct (batch_newFiles_ids sel w) as [_ Hfiles].
      unfold Batch.handleFileChange.
      destruct (Batch.newFiles sel w) as [new w1]. cbn [fst snd] in *.
      eapply (append_accounted w); [done| |exact Hser|done|done].
      simpl. by rewrite Hfiles.
    + destruct (image_newFiles_spec sel w) as (_ & _ & Hser & Hurls & Hr & _).
      destruct (image_newFiles_ids sel w) as [_ Hfiles].
      unfold ImageOnly.handleFileChange.
      destruct (ImageOnly.newFiles sel w) as [new w1]. cbn [fst snd] in *.
      eapply (append_accounted w); [done| |exact Hser|done|done].
      simpl. by rewrite Hfiles.
  - intros i u. unfold handles_accounted in *. by rewrite previews_update.
  - destruct (batch_run_urls w) as (ds & _ & Hr & Hu & Hf & _).
    by eapply run_accounted.
  - destruct (image_run_urls w) as (ds & _ & Hr & Hu & Hf).
    by eapply run_accounted.
  - intros i Hnd. by apply removeFile_accounted.
Qed.

Lemma batch_step_busy a w :
  processing w = true →
  processing (BatchView.step a w) = true
  ∧ downloads (BatchView.step a w) = downloads w.
Proof.
  intros Hp. destruct a as [sel|i|i u|];
    cbv beta iota delta [BatchView.step].
  - destruct (batch_newFiles_spec sel w) as (_ & _ & _ & _ & _ & Hd & _ & Hp' & _).
    unfold Batch.handleFileChange.
    destruct (Batch.newFiles sel w) as [new w1]. cbn [fst snd] in *.
    simpl. split; congruence.
  - destruct (removeFile_frame i w) as (Hd & _ & Hp' & _). split; congruence.
  - done.
  - unfold BatchView.click, BatchView.disabled. by rewrite Hp.
Qed.

Lemma image_step_busy a w :
  processing w = true →
  processing (ImageOnlyView.step a w) = true
  ∧ downloads (ImageOnlyView.step a w) = downloads w.
Proof.
  intros Hp. destruct a as [sel|i|i u|];
    cbv beta iota delta [ImageOnlyView.step].
  - destruct (image_newFiles_spec sel w) as (_ & _ & _ & _ & _ & Hd & _ & Hp' & _).
    unfold ImageOnly.handleFileChange.
    destruct (ImageOnly.newFiles sel w) as [new w1]. cbn [fst snd] in *.
    simpl. split; congruence.
  - destruct (removeFile_frame i w) as (Hd & _ & Hp' & _). split; congruence.
  - done.
  - unfold ImageOnlyView.click, ImageOnlyView.disabled. by rewrite Hp.
Qed.

(** X16.  While the busy flag is set the button is disabled, and nothing
    else the user can do clears the flag: after any sequence of file
    selections, removals, settings edits and clicks, the flag is still set
    and nothing more has been downloaded.  A run that was left suspended
    therefore blocks the component for good. *)
Theorem busy_flag_blocks_every_later_run (w : World) (acts : list action) :
  processing w = true →
  (processing (foldl (λ w a, BatchView.step a w) w acts) = true
   ∧ downloads (foldl (λ w a, BatchView.step a w) w acts) = downloads w)
  ∧ (processing (foldl (λ w a, ImageOnlyView.step a w) w acts) = true
     ∧ downloads (foldl (λ w a, ImageOnlyView.step a w) w acts) = downloads w).
Proof.
  intros Hp. split.
  - apply (foldl_invariant
             (λ w', processing w' = true ∧ downloads w' = downloads w));
      [|done].
    intros w' a [Hp' Hd']. destruct (batch_step_busy a w' Hp') as [? Hd].
    split; [done|congruence].
  - apply (foldl_invariant
             (λ w', processing w' = true ∧ downloads w' = downloads w));
      [|done].
    intros w' a [Hp' Hd']. destruct (image_step_busy a w' Hp') as [? Hd].
    split; [done|congruence].
Qed.

End Lifecycle.

Lemma busy_flag_blocks_every_later_run_witness :
  let a := image_entry "x" 0 (png_file "photo.jpg") "photo" 800 600 in
  let b := image_entry "y" 1 (broken_file "b.png") "b" 800 600 in
  let stuck := (@ImageOnly.handleProcessAndDownload sample_browser
                  (with_files [a; b])).1 in
  let acts := [ClickRemove "y"; ClickProcess;
               SelectFiles [png_file "c.png"]; ClickProcess] in
  processing stuck = true
  ∧ processing (foldl (λ w a, @ImageOnlyView.step sample_browser a w) stuck acts)
    = true
  ∧ downloads (foldl (λ w a, @ImageOnlyView.step sample_browser a w) stuck acts)
    = downloads stuck.
Proof.
  intros a b stuck acts.
  assert (processing stuck = true) as Hp by reflexivity.
  destruct (@busy_flag_blocks_every_later_run sample_browser stuck acts Hp)
    as [_ [Hp' Hd']].
  split; [exact Hp|]. split; [exact Hp'|exact Hd'].
Defined.

(** ** The extension shown beside the output name *)

Section ShownExtension.
Context `{Browser}.
Implicit Types (w : World) (f : FileState).

Lemma split_last_some sep s : ∃ seg, last (JsString.split sep s) = Some seg.
Proof.
  induction s as [|c s [seg IH]]; simpl; [by eexists|].
  destruct (decide (c = sep)).
  - destruct (JsString.split sep s) as [|x l]; [done|]. by exists seg.
  - destruct (JsString.split sep s) as [|x [|y l]]; [done|by eexists|].
    by exists seg.
Qed.

(** X17.  The extension shown beside the output name is the one the output
    file gets, with two exceptions visible in the code.  For a document the
    label [".pdf"] completes the name of the artifact.  For an image whose
    source name has something after its last dot (or has no dot), the
    image-only component shows exactly the suffix of the download, while
    the batch component shows it without the dot that the file name has.
    For a source name ending in a dot the label shows nothing after the
    dot, while the file gets the extension ["png"]. *)
Theorem shown_extension_and_output_name f w :
  (type f = Some pdf → ∀ blob name,
     (Batch.processFile f w).2 = Resolved (blob, name) →
     name = outputFilename f +:+ BatchView.extension_label f)
  ∧ (type f ≠ Some pdf → BatchView.extension_label f ≠ EmptyString →
     (∀ blob name,
        (Batch.processFile f w).2 = Resolved (blob, name) →
        name = outputFilename f +:+ "." +:+ BatchView.extension_label f)
     ∧ ((ImageOnly.processAndDownloadImage f w).2 = Resolved tt →
          ∃ blob, downloads (ImageOnly.processAndDownloadImage f w).1
                  = downloads w
                    ++ [(outputFilename f +:+ ImageOnlyView.extension_label f,
                         RBlob blob)]))
  ∧ (∀ stem, file_name (file f) = stem +:+ "." → type f ≠ Some pdf →
       BatchView.extension_label f = EmptyString
       ∧ ImageOnlyView.extension_label f = "."
       ∧ extension_of (file_name (file f)) = "png").
Proof.
  split; [|split].
  - intros Hty blob name Hres. unfold BatchView.extension_label. rewrite Hty.
    by eapply processFile_pdf_filename.
  - intros Hty Hlabel.
    assert (BatchView.extension_label f
            = default EmptyString (last (JsString.split "." (file_name (file f)))))
      as Hl by (unfold BatchView.extension_label; by destruct (type f) as [[]|]).
    rewrite Hl in Hlabel |- *. unfold ImageOnlyView.extension_label.
    destruct (split_last_some "."%char (file_name (file f))) as [seg Hseg].
    assert (extension_of (file_name (file f)) = seg) as Hext.
    { unfold extension_of. rewrite Hseg in Hlabel |- *. simpl in Hlabel.
      by rewrite decide_False. }
    rewrite Hseg. simpl. split.
    + intros blob name. rewrite processFile_image by done.
      unfold image_artifact. rewrite Hext.
      destruct (render f); simpl; [|done]. by intros [= _ <-].
    + pose proof (processAndDownloadImage_cases f w) as Hc.
      unfold image_artifact in Hc. rewrite Hext in Hc.
      destruct (render f) as [blob|]; simpl in Hc.
      * destruct Hc as (w' & -> & Hdl & _). intros _. by exists blob.
      * by destruct Hc as (w' & -> & _).
  - intros stem Hname Hty.
    assert (last (JsString.split "." (file_name (file f))) = Some EmptyString)
      as Hseg.
    { rewrite Hname.
      change (stem +:+ ".") with (stem +:+ String "."%char EmptyString).
      by rewrite last_split_app. }
    unfold BatchView.extension_label, ImageOnlyView.extension_label, extension_of.
    rewrite Hseg. by destruct (type f) as [[]|].
Qed.

End ShownExtension.

(** ** From selection to download *)

Section EndToEnd.
Context `{Browser}.
Implicit Types (w : World) (f : File) (e : FileState).

(** The bitmap of a picture resized to the default 800 x 600. *)
Lemma default_artifact e stem ext img :
  file_name (file e) = stem +:+ "." +:+ ext →
  dotless ext = true → slashless ext = true → ext ≠ EmptyString →
  outputFilename e = JsString.strip_extension (file_name (file e)) →
  width e = Some 800 → height e = Some 600 →
  (∃ h, preview e = Some h ∧ url_target h = RBlob (FileBlob (file e))) →
  decode (FileBlob (file e)) = Some img →
  encodes {| canvas_width := Some 800; canvas_height := Some 600;
             canvas_drawn := [{| draw_image := img; draw_dx := 0; draw_dy := 0;
                                 draw_dw := Some 800; draw_dh := Some 600 |}] |}
          (file_type (file e)) = true →
  image_artifact e
  = Some (CanvasBlob (file_type (file e))
            {| canvas_width := Some 800; canvas_height := Some 600;
               canvas_drawn := [{| draw_image := img; draw_dx := 0; draw_dy := 0;
                                   draw_dw := Some 800; draw_dh := Some 600 |}] |},
          file_name (file e)).
Proof.
  intros Hname Hd Hs Hne Hout Hw Hh (h & Hp & Ht) Hdec Henc.
  unfold image_artifact, render, load_image, toBlob.
  rewrite Hp, Ht, Hdec. simpl. rewrite rasterize_fresh, Hw, Hh.
  rewrite !canvas_size_in_range by lia. rewrite Henc. simpl.
  rewrite Hout, Hname.
  change (stem +:+ "." +:+ ext) with (stem +:+ String "."%char ext).
  rewrite strip_extension_dotted by done.
  change (stem +:+ String "."%char ext) with (stem +:+ "." +:+ ext).
  by rewrite extension_of_dotted.
Qed.

(** X18.  In the image-only component, select files into an empty store,
    leave the settings alone and process: if every file has a name ending
    in a dot and a non-empty extension without dot or slash, decodes, and
    its 800 x 600 bitmap is encoded, then the run is fulfilled and
    downloads exactly one picture per selected file, in selection order,
    each under the name of its source file and of size 800 x 600 whatever
    the size of the source. *)
Theorem select_then_process_downloads_each_source (w : World) (sel : list File) :
  files w = [] →
  Forall (λ f,
    (∃ stem ext, file_name f = stem +:+ "." +:+ ext ∧ dotless ext = true
                 ∧ slashless ext = true ∧ ext ≠ EmptyString)
    ∧ ∃ img, decode (FileBlob f) = Some img
             ∧ encodes {| canvas_width := Some 800; canvas_height := Some 600;
                          canvas_drawn :=
                            [{| draw_image := img; draw_dx := 0; draw_dy := 0;
                                draw_dw := Some 800; draw_dh := Some 600 |}] |}
                       (file_type f) = true) sel →
  ∃ ds,
    (ImageOnly.handleProcessAndDownload (ImageOnly.handleFileChange sel w)).2
      = Resolved tt
    ∧ downloads (ImageOnly.handleProcessAndDownload
                   (ImageOnly.handleFileChange sel w)).1
      = downloads w ++ ds
    ∧ Forall2 (λ f d,
        d.1 = file_name f
        ∧ ∃ img b, decode (FileBlob f) = Some img
                   ∧ d.2 = RBlob b
                   ∧ blob_dimensions b = Some (Some 800, Some 600)) sel ds.
Proof.
  intros Hempty Hgood.
  destruct (image_newFiles_spec sel w) as (Hf & Hall & _ & _ & _ & Hd & _).
  destruct (image_newFiles_ids sel w) as [_ Hfiles].
  assert (files (ImageOnly.handleFileChange sel w) = (ImageOnly.newFiles sel w).1
          ∧ downloads (ImageOnly.handleFileChange sel w) = downloads w)
    as [Hstore Hdl].
  { unfold ImageOnly.handleFileChange.
    destruct (ImageOnly.newFiles sel w) as [new w1]. cbn [fst snd] in *.
    simpl. by rewrite Hfiles, Hempty, Hd. }
  set (w1 := ImageOnly.handleFileChange sel w) in *.
  set (new := (ImageOnly.newFiles sel w).1) in *.
  assert (Forall2 (λ f d,
            d.1 = file_name f
            ∧ ∃ img b, decode (FileBlob f) = Some img ∧ d.2 = RBlob b
                       ∧ blob_dimensions b = Some (Some 800, Some 600))
            sel (emitted new)
          ∧ Forall (λ e, is_Some (image_artifact e)) new) as [Hds Hok].
  { rewrite <- Hf in Hgood |- *. clearbody new. clear -Hall Hgood.
    induction Hall as [|e new (Hout & _ & Hw & Hh & Hp) _ IH];
      [split; constructor|].
    rewrite fmap_cons in Hgood. apply Forall_cons in Hgood as [Hg Hgood].
    destruct Hg as [(stem & ext & Hname & Hdl & Hsl & Hne) (img & Hdec & Henc)].
    pose proof (default_artifact e stem ext img Hname Hdl Hsl Hne Hout Hw Hh
                  Hp Hdec Henc) as Hart.
    destruct (IH Hgood) as [IH1 IH2]. split.
    - unfold emitted. rewrite fmap_cons. simpl. rewrite Hart. simpl.
      constructor; [|exact IH1]. split; [done|]. by eexists img, _.
    - constructor; [by eexists|done]. }
  exists (emitted new).
  unfold ImageOnly.handleProcessAndDownload. rewrite Hstore.
  case_bool_decide as Hlen.
  { apply length_zero_iff_nil in Hlen. rewrite Hlen in Hds |- *.
    simpl. rewrite Hdl. by rewrite app_nil_r. }
  destruct (for_of_all_succeed new (setProcessing true w1) Hok)
    as (w' & Hrun & Hd' & _).
  unfold try_catch_finally. rewrite Hrun. simpl.
  split; [done|]. split; [|done]. by rewrite Hd', <- Hdl.
Qed.

End EndToEnd.

Lemma select_then_process_downloads_each_source_witness :
  ∃ ds,
    downloads (@ImageOnly.handleProcessAndDownload sample_browser
                 (@ImageOnly.handleFileChange sample_browser
                    [png_file "photo.png"; png_file "scan.v2.png"] initial)).1
      = downloads initial ++ ds
    ∧ (fst <$> ds) = ["photo.png"; "scan.v2.png"].
Proof.
  destruct (@select_then_process_downloads_each_source sample_browser initial
              [png_file "photo.png"; png_file "scan.v2.png"])
    as (ds & _ & Hd & Hds).
  - reflexivity.
  - repeat constructor.
    + by exists "photo", "png".
    + by eexists.
    + by exists "scan.v2", "png".
    + by eexists.
  - exists ds. split; [exact Hd|].
    apply Forall2_cons_inv_l in Hds as (d1 & ds1 & [Hn1 _] & Hds & ->).
    apply Forall2_cons_inv_l in Hds as (d2 & ds2 & [Hn2 _] & Hds & ->).
    apply Forall2_nil_inv_l in Hds as ->.
    simpl. by rewrite Hn1, Hn2.
Defined.
